(** * Verification of the anicet capability-classification core

    Shallow embedding of [src/tools/arm64.inspect.py] (instruction
    classifier over [re.search] patterns) and [src/tools/auxv.print.py]
    (auxv record decoder and HWCAP bit expander).

    Strings are modelled over Rocq's 8-bit [ascii], read as the code points
    0..255 of a Python [str]. The regular expressions of the source are kept
    as the pattern strings of the source; [compile] parses the subset of
    Python's [re] syntax they use, and matching is by Brzozowski
    derivatives, proved equivalent to a relational semantics. *)

From Stdlib Require Import String Ascii List Bool Arith Lia ZArith QArith.
From Stdlib Require Import Sorted Permutation.
Import ListNotations.
Open Scope nat_scope.
Open Scope bool_scope.

(* ------------------------------------------------------------------ *)
(** ** Character classes and regular expressions *)

Module Regex.

(** Python's [\s] on [str]: [str.isspace] code points below 256. *)
Definition space_codes : list nat := [9; 10; 11; 12; 13; 28; 29; 30; 31; 32; 133; 160].

Definition is_space (c : ascii) : bool :=
  existsb (Nat.eqb (nat_of_ascii c)) space_codes.

Inductive citem : Type :=
| IChar (a : ascii)
| IRange (lo hi : ascii)
| ISpace.

Definition citem_match (i : citem) (c : ascii) : bool :=
  match i with
  | IChar a => Ascii.eqb a c
  | IRange lo hi => (nat_of_ascii lo <=? nat_of_ascii c) && (nat_of_ascii c <=? nat_of_ascii hi)
  | ISpace => is_space c
  end.

(** [Chr neg items]: one character in the class (or outside it if [neg]). *)
Definition cls_match (neg : bool) (items : list citem) (c : ascii) : bool :=
  xorb neg (existsb (fun i => citem_match i c) items).

Inductive re : Type :=
| Empty
| Eps
| Chr (neg : bool) (items : list citem)
| Alt (r1 r2 : re)
| Cat (r1 r2 : re)
| Star (r : re).

Inductive in_re : re -> list ascii -> Prop :=
| R_eps : in_re Eps []
| R_chr n is c : cls_match n is c = true -> in_re (Chr n is) [c]
| R_altl r1 r2 s : in_re r1 s -> in_re (Alt r1 r2) s
| R_altr r1 r2 s : in_re r2 s -> in_re (Alt r1 r2) s
| R_cat r1 r2 s1 s2 : in_re r1 s1 -> in_re r2 s2 -> in_re (Cat r1 r2) (s1 ++ s2)
| R_star0 r : in_re (Star r) []
| R_starS r s1 s2 : in_re r s1 -> in_re (Star r) s2 -> in_re (Star r) (s1 ++ s2).

Fixpoint nullable (r : re) : bool :=
  match r with
  | Empty => false
  | Eps => true
  | Chr _ _ => false
  | Alt a b => nullable a || nullable b
  | Cat a b => nullable a && nullable b
  | Star _ => true
  end.

Definition alt (a b : re) : re :=
  match a, b with
  | Empty, _ => b
  | _, Empty => a
  | _, _ => Alt a b
  end.

Definition cat (a b : re) : re :=
  match a with
  | Empty => Empty
  | Eps => b
  | _ => match b with Empty => Empty | _ => Cat a b end
  end.

Fixpoint deriv (c : ascii) (r : re) : re :=
  match r with
  | Empty | Eps => Empty
  | Chr n is => if cls_match n is c then Eps else Empty
  | Alt a b => alt (deriv c a) (deriv c b)
  | Cat a b =>
      if nullable a then alt (cat (deriv c a) b) (deriv c b)
      else cat (deriv c a) b
  | Star a => cat (deriv c a) (Star a)
  end.

(** Some prefix of [s] is in the language of [r] (a match at position 0). *)
Fixpoint prefix_match (r : re) (s : list ascii) : bool :=
  nullable r ||
  match s with
  | [] => false
  | c :: s' => prefix_match (deriv c r) s'
  end.

(** Some substring of [s] is in the language of [r] ([re.search]). *)
Fixpoint search (r : re) (s : list ascii) : bool :=
  prefix_match r s ||
  match s with
  | [] => false
  | _ :: s' => search r s'
  end.

(** *** Parser for the pattern syntax used by the source *)

Definition is_meta (c : ascii) : bool :=
  existsb (Ascii.eqb c) ["*"; "+"; "?"; "{"; "}"; "^"; "$"; ")"; "|"; "]"]%char.

Fixpoint p_items (s : list ascii) : option (list citem * list ascii) :=
  match s with
  | [] => None
  | c :: s1 =>
      if Ascii.eqb c "]" then Some ([], s1)
      else if Ascii.eqb c "\" then None
      else
        match s1 with
        | d :: e :: s2 =>
            if Ascii.eqb d "-" && negb (Ascii.eqb e "]") then
              match p_items s2 with
              | Some (is, r) => Some (IRange c e :: is, r)
              | None => None
              end
            else
              match p_items s1 with
              | Some (is, r) => Some (IChar c :: is, r)
              | None => None
              end
        | _ =>
            match p_items s1 with
            | Some (is, r) => Some (IChar c :: is, r)
            | None => None
            end
        end
  end.

Definition p_class (s : list ascii) : option (re * list ascii) :=
  match s with
  | c :: s1 =>
      if Ascii.eqb c "^" then
        match p_items s1 with Some (is, r) => Some (Chr true is, r) | None => None end
      else
        match p_items s with Some (is, r) => Some (Chr false is, r) | None => None end
  | [] => None
  end.

Definition p_escape (c : ascii) : option re :=
  if Ascii.eqb c "s" then Some (Chr false [ISpace])
  else if is_meta c || existsb (Ascii.eqb c) ["."; "("; "["; "\"]%char
  then Some (Chr false [IChar c])
  else None.

Definition p_quant (a : re) (s : list ascii) : re * list ascii :=
  match s with
  | c :: s' =>
      if Ascii.eqb c "+" then (Cat a (Star a), s')
      else if Ascii.eqb c "*" then (Star a, s')
      else (a, s)
  | [] => (a, s)
  end.

Fixpoint cat_list (rs : list re) : re :=
  match rs with
  | [] => Eps
  | [r] => r
  | r :: rs' => Cat r (cat_list rs')
  end.

Fixpoint p_alt (fuel : nat) (s : list ascii) : option (re * list ascii) :=
  match fuel with
  | 0 => None
  | S f =>
      match p_seq f s with
      | Some (rs, c :: s') =>
          if Ascii.eqb c "|" then
            match p_alt f s' with
            | Some (r2, s'') => Some (Alt (cat_list rs) r2, s'')
            | None => None
            end
          else Some (cat_list rs, c :: s')
      | Some (rs, []) => Some (cat_list rs, [])
      | None => None
      end
  end
with p_seq (fuel : nat) (s : list ascii) : option (list re * list ascii) :=
  match fuel with
  | 0 => None
  | S f =>
      match s with
      | [] => Some ([], [])
      | c :: _ =>
          if Ascii.eqb c ")" || Ascii.eqb c "|" then Some ([], s)
          else
            match p_atom f s with
            | Some (a, s1) =>
                let (a', s2) := p_quant a s1 in
                match p_seq f s2 with
                | Some (rs, s3) => Some (a' :: rs, s3)
                | None => None
                end
            | None => None
            end
      end
  end
with p_atom (fuel : nat) (s : list ascii) : option (re * list ascii) :=
  match fuel with
  | 0 => None
  | S f =>
      match s with
      | [] => None
      | c :: s1 =>
          if Ascii.eqb c "(" then
            match p_alt f s1 with
            | Some (r, d :: s2) => if Ascii.eqb d ")" then Some (r, s2) else None
            | _ => None
            end
          else if Ascii.eqb c "[" then p_class s1
          else if Ascii.eqb c "\" then
            match s1 with
            | e :: s2 => match p_escape e with Some r => Some (r, s2) | None => None end
            | [] => None
            end
          else if Ascii.eqb c "." then Some (Chr true [IChar "010"%char], s1)
          else if is_meta c then None
          else Some (Chr false [IChar c], s1)
      end
  end.

(** [compile pat = Some (anchored, r)]: [anchored] when [pat] starts with
    [^]; [None] for text outside the supported syntax. *)
Definition compile (pat : string) : option (bool * re) :=
  let s := list_ascii_of_string pat in
  let '(anch, s') :=
    match s with
    | c :: t => if Ascii.eqb c "^" then (true, t) else (false, s)
    | [] => (false, s)
    end in
  match p_alt (4 * List.length s' + 4) s' with
  | Some (r, []) => Some (anch, r)
  | _ => None
  end.

(** [re.search(pat, line)] as a truth value (no [re.MULTILINE]: [^] only
    at position 0). *)
Definition re_search (pat : string) (line : list ascii) : bool :=
  match compile pat with
  | Some (true, r) => prefix_match r line
  | Some (false, r) => search r line
  | None => false
  end.

(** *** A decision procedure used for the address-field analysis *)

Definition all_chars : list ascii := map ascii_of_nat (seq 0 256).

Definition is_digit (c : ascii) : bool :=
  (48 <=? nat_of_ascii c) && (nat_of_ascii c <=? 57).

Definition is_hex (c : ascii) : bool :=
  is_digit c || ((97 <=? nat_of_ascii c) && (nat_of_ascii c <=? 102)).

(** A sound emptiness test. *)
Fixpoint is_empty (r : re) : bool :=
  match r with
  | Empty => true
  | Eps | Chr _ _ | Star _ => false
  | Alt a b => is_empty a && is_empty b
  | Cat a b => is_empty a || is_empty b
  end.

(** Every word of [r] starts with a whitespace character followed by a
    character that is neither whitespace nor a decimal digit. *)
Definition ws_then_nondigit (r : re) : bool :=
  negb (nullable r) &&
  forallb (fun c =>
    if is_space c then
      let d := deriv c r in
      negb (nullable d) &&
      forallb (fun c2 => if is_space c2 || is_digit c2 then is_empty (deriv c2 d) else true)
        all_chars
    else is_empty (deriv c r)) all_chars.

End Regex.

(* ------------------------------------------------------------------ *)
(** ** [arm64.inspect.py]: pattern registry and instruction classifier *)

Module Inspect.
Import Regex.

(** [INSPECT_ARRAY]: category name and [re] pattern, in insertion order. *)
Definition INSPECT_ARRAY : list (string * string) := [
  (* 1. Core architecture and SIMD *)
  ("asimd", "\s(fadd|fmul|ld1|st1|saddl|uaddl|sqadd|movi|add\s+v|sub\s+v|mul\s+v|ld[234]|st[234]|umull|smull)");
  ("asimdhp", "\s(fadd\s+h|fmul\s+h|fmla\s+h|fabs\s+h|fneg\s+h|fsqrt\s+h)");
  ("asimdfhm", "\s(fmlal|fmlsl)");
  ("asimddp", "\s(sdot|udot)");
  ("asimdrdm", "\s(sqrdmlah|sqrdmlsh)");
  ("i8mm", "\s(smmla|ummla|usmmla)");
  ("bf16", "\s(bfdot|bfmmla|bfcvt)");
  ("bf16fml", "\s(bfmlalb|bfmlalt)");
  ("sve", "\sz[0-9]+\.");
  ("sve2", "\s(sqrdmlah\s+z|sqrdmlsh\s+z|match|nmatch|histcnt|histseg|addhnb|raddhnb)");
  ("svei8mm", "\s(smmla\s+z|ummla\s+z|usmmla\s+z)");
  ("svebf16", "\s(bfdot\s+z|bfmmla\s+z|bfcvt\s+z)");
  ("sveaes", "\s(aesd\s+z|aese\s+z|aesimc\s+z|aesmc\s+z)");
  ("svepmull", "\s(pmull\s+z)");
  ("svebitperm", "\s(bext|bdep|bgrp)");
  ("svesha3", "\s(rax1|bcax|eor3|xar)");
  ("svesm4", "\s(sm4e\s+z|sm4ekey\s+z)");
  ("fphp", "\s(fcvt\s+h|fadd\s+h|fmul\s+h|fdiv\s+h|fsub\s+h)");
  ("fcma", "\s(fcmla|fcadd)");
  ("frint", "\s(frint32x|frint64x|frint32z|frint64z)");
  (* 2. Cryptography and hash extensions *)
  ("aes", "\s(aese|aesd|aesmc|aesimc)");
  ("pmull", "\s(pmull)");
  ("sha1", "\s(sha1[cpmhsu])");
  ("sha2", "\s(sha256[hsu]|sha512[hsu])");
  ("sha3", "\s(rax1|bcax|eor3|xar)");
  ("sha512", "\s(sha512[hsu])");
  ("sm3", "\s(sm3ss1|sm3tt[12][ab]|sm3partw[12])");
  ("sm4", "\s(sm4e|sm4ekey)");
  (* 3. Memory, atomics, and synchronization *)
  ("atomics", "\s(ldadd|ldclr|ldeor|ldset|ldsmax|ldsmin|ldumax|ldumin|cas|casp|swp)");
  ("dcpop", "\sdc\s+cvap");
  ("dcpodp", "\sdc\s+cvadp");
  ("uscat", "\s(stset|stclr)");
  ("lrcpc", "\s(ldapr|stlr)");
  ("ilrcpc", "\s(ldapur|stlur)");
  ("dgh", "\sdgh");
  ("sb", "\ssb");
  ("wfxt", "\s(wfet|wfit)");
  (* 4. Security and control-flow *)
  ("paca", "\s(pacia|pacib|autia|autib)");
  ("pacg", "\s(pacda|pacdb|pacga|autda|autdb|autga)");
  ("bti", "\sbti");
  ("flagm", "\s(setf8|setf16|rmif)");
  ("flagm2", "\s(axflag|xaflag)");
  (* 5. Data conversion and integer extensions *)
  ("jscvt", "\sfjcvtzs");
  ("crc32", "\scrc32[bhwxc]");
  ("dit", "\smsr\s+dit");
  ("cpuid", "\smrs\s+.*,\s*id_");
  ("evtstrm", "\sevtstrm")
]%string.

Definition newline : ascii := "010"%char.

(** [str.split("\n")]. *)
Fixpoint split_nl (s : list ascii) : list (list ascii) :=
  match s with
  | [] => [[]]
  | c :: s' =>
      if Ascii.eqb c newline then [] :: split_nl s'
      else match split_nl s' with
           | [] => [[c]]
           | l :: ls => (c :: l) :: ls
           end
  end.

Definition INSN_LINE : string := "^\s+[0-9a-f]+:".

(** [BinaryInspector.count_instructions]. *)
Definition count_instructions (disasm pattern : string) : nat :=
  fold_left
    (fun count line =>
       if re_search INSN_LINE line then
         if re_search pattern line then S count else count
       else count)
    (split_nl (list_ascii_of_string disasm)) 0.

(** Python [str(b).lower()]. *)
Definition bool_lower (b : bool) : string := if b then "true" else "false".

(** Values stored in the inspection [OrderedDict]; floats are kept as the
    rationals they round. *)
Inductive value : Type :=
| VStr (s : string)
| VInt (n : nat)
| VFloat (q : Q).

(** [OrderedDict.__setitem__]: an existing key keeps its position. *)
Fixpoint odict_set (k : string) (v : value) (d : list (string * value)) : list (string * value) :=
  match d with
  | [] => [(k, v)]
  | (k', v') :: d' => if String.eqb k k' then (k, v) :: d' else (k', v') :: odict_set k v d'
  end.

(** [OrderedDict.update]. *)
Definition odict_update (d e : list (string * value)) : list (string * value) :=
  fold_left (fun acc kv => odict_set (fst kv) (snd kv) acc) e d.

(** [OrderedDict.__getitem__]. *)
Fixpoint odict_get (k : string) (d : list (string * value)) : option value :=
  match d with
  | [] => None
  | (k', v) :: d' => if String.eqb k k' then Some v else odict_get k d'
  end.

(** [INSPECT_ARRAY[name]], for names of the registry. *)
Definition registry_pattern (name : string) : string :=
  match find (fun e => String.eqb (fst e) name) INSPECT_ARRAY with
  | Some (_, p) => p
  | None => EmptyString
  end.

(** The fields returned by [parse_file_info] (output of the external
    [file] tool). *)
Record file_info : Type := {
  binary_format : string;
  arch : string;
  elf_version : string;
  dynamically_linked : bool;
  interpreter : string;
  android_api : string;
  builder : string;
  build_id_sha1 : string;
  debug_info : bool;
  stripped : bool
}.

(** [percentage = (count * 100.0) / total_insn if total_insn > 0 else 0.0] *)
Definition percentage (count total_insn : nat) : Q :=
  if 0 <? total_insn
  then (inject_Z (Z.of_nat count) * 100 / inject_Z (Z.of_nat total_insn))%Q
  else 0%Q.

(** One iteration of [for ext_name, pattern in INSPECT_ARRAY.items()]:
    state [(detected, undetected, extension_results)]. *)
Definition extension_step (disasm : string) (total_insn : nat)
  (st : list string * list string * list (string * value)) (entry : string * string)
  : list string * list string * list (string * value) :=
  let '(detected, undetected, extension_results) := st in
  let '(ext_name, pattern) := entry in
  let count := count_instructions disasm pattern in
  let pct := percentage count total_insn in
  let er := odict_set (ext_name ++ "_instructions") (VInt count) extension_results in
  let er := odict_set (ext_name ++ "_instructions_percentage") (VFloat pct) er in
  if 0 <? count then (detected ++ [ext_name], undetected, er)
  else (detected, undetected ++ [ext_name], er).

Definition extension_loop (reg : list (string * string)) (disasm : string) (total_insn : nat)
  : list string * list string * list (string * value) :=
  fold_left (extension_step disasm total_insn) reg ([], [], []).

Definition join_or_none (l : list string) : string :=
  match l with
  | [] => "none"
  | _ => String.concat ";" l
  end.

(** [BinaryInspector.inspect], with the results of the external tools
    ([file], [stat], [llvm-objdump -d]) as arguments: [binary_name],
    [info = parse_file_info(get_file_info())], [size_mb] and [disasm]. *)
Definition inspect (binary_name : string) (info : file_info) (size_mb : Q) (disasm : string)
  : list (string * value) :=
  let total_insn := count_instructions disasm "." in
  let '(detected, undetected, extension_results) :=
    extension_loop INSPECT_ARRAY disasm total_insn in
  let output := odict_set "binary_name" (VStr binary_name) [] in
  let output := odict_set "detected_extensions" (VStr (join_or_none detected)) output in
  let output := odict_set "undetected_extensions" (VStr (join_or_none undetected)) output in
  let output := odict_set "binary_format" (VStr (binary_format info)) output in
  let output := odict_set "arch" (VStr (arch info)) output in
  let output := odict_set "elf_version" (VStr (elf_version info)) output in
  let output := odict_set "dynamically_linked" (VStr (bool_lower (dynamically_linked info))) output in
  let output := odict_set "interpreter" (VStr (interpreter info)) output in
  let output := odict_set "android_api" (VStr (android_api info)) output in
  let output := odict_set "builder" (VStr (builder info)) output in
  let output := odict_set "build_id_sha1" (VStr (build_id_sha1 info)) output in
  let output := odict_set "debug_info" (VStr (bool_lower (debug_info info))) output in
  let output := odict_set "stripped" (VStr (bool_lower (stripped info))) output in
  let output := odict_set "binary_size_mb" (VFloat size_mb) output in
  let output := odict_set "total_instructions" (VInt total_insn) output in
  odict_update output extension_results.

(** *** Auxiliary descriptions of the report, used by the proofs *)

Fixpoint nodupb (l : list string) : bool :=
  match l with
  | [] => true
  | x :: l' => negb (existsb (String.eqb x) l') && nodupb l'
  end.

Definition ext_keys (reg : list (string * string)) : list string :=
  flat_map (fun e => [fst e ++ "_instructions"; fst e ++ "_instructions_percentage"]%string) reg.

Definition ext_entries (disasm : string) (total_insn : nat) (reg : list (string * string))
  : list (string * value) :=
  flat_map (fun e =>
    let count := count_instructions disasm (snd e) in
    [(fst e ++ "_instructions", VInt count);
     (fst e ++ "_instructions_percentage", VFloat (percentage count total_insn))]%string) reg.

Definition detected_of (disasm : string) : list string :=
  map fst (filter (fun e => 0 <? count_instructions disasm (snd e)) INSPECT_ARRAY).

Definition undetected_of (disasm : string) : list string :=
  map fst (filter (fun e => negb (0 <? count_instructions disasm (snd e))) INSPECT_ARRAY).

Definition meta_entries (binary_name : string) (info : file_info) (size_mb : Q)
  (detected undetected : list string) (total_insn : nat) : list (string * value) := [
  ("binary_name", VStr binary_name);
  ("detected_extensions", VStr (join_or_none detected));
  ("undetected_extensions", VStr (join_or_none undetected));
  ("binary_format", VStr (binary_format info));
  ("arch", VStr (arch info));
  ("elf_version", VStr (elf_version info));
  ("dynamically_linked", VStr (bool_lower (dynamically_linked info)));
  ("interpreter", VStr (interpreter info));
  ("android_api", VStr (android_api info));
  ("builder", VStr (builder info));
  ("build_id_sha1", VStr (build_id_sha1 info));
  ("debug_info", VStr (bool_lower (debug_info info)));
  ("stripped", VStr (bool_lower (stripped info)));
  ("binary_size_mb", VFloat size_mb);
  ("total_instructions", VInt total_insn)]%string.

Definition META_KEYS : list string := [
  "binary_name"; "detected_extensions"; "undetected_extensions"; "binary_format";
  "arch"; "elf_version"; "dynamically_linked"; "interpreter"; "android_api";
  "builder"; "build_id_sha1"; "debug_info"; "stripped"; "binary_size_mb";
  "total_instructions"]%string.

(** A [file_info] record, as [parse_file_info] builds for a dynamically
    linked AArch64 executable. *)
Definition sample_info : file_info :=
  {| binary_format := "ELF 64-bit LSB executable"; arch := "ARM aarch64"; elf_version := "1";
     dynamically_linked := true; interpreter := "/lib/ld-linux-aarch64.so.1"; android_api := "none";
     builder := "none"; build_id_sha1 := "none"; debug_info := false; stripped := false |}.

(** *** Further methods of [BinaryInspector] and the print loop of [main] *)

(** [str.strip()]: whitespace ([str.isspace]) removed at both ends. *)
Fixpoint lstrip (s : list ascii) : list ascii :=
  match s with
  | c :: s' => if is_space c then lstrip s' else s
  | [] => []
  end.

Definition strip (s : list ascii) : list ascii := rev (lstrip (rev (lstrip s))).

(** The loop of [BinaryInspector.find_sample_instructions] over the lines
    left, with the samples found so far. *)
Fixpoint samples_loop (pattern : string) (limit : Z) (lines : list (list ascii))
  (samples : list string) : list string :=
  match lines with
  | [] => samples
  | line :: rest =>
      if re_search INSN_LINE line then
        if re_search pattern line then
          let samples := samples ++ [string_of_list_ascii (strip line)] in
          if (limit <=? Z.of_nat (length samples))%Z then samples
          else samples_loop pattern limit rest samples
        else samples_loop pattern limit rest samples
      else samples_loop pattern limit rest samples
  end.

(** [BinaryInspector.find_sample_instructions(disasm, pattern, limit)]. *)
Definition find_sample_instructions (disasm pattern : string) (limit : Z) : list string :=
  samples_loop pattern limit (split_nl (list_ascii_of_string disasm)) [].

(** Python's [needle in s] on strings. *)
Fixpoint is_prefix (p s : list ascii) : bool :=
  match p, s with
  | [], _ => true
  | a :: p', b :: s' => Ascii.eqb a b && is_prefix p' s'
  | _ :: _, [] => false
  end.

Fixpoint contains (needle s : list ascii) : bool :=
  is_prefix needle s || match s with [] => false | _ :: s' => contains needle s' end.

(** [BinaryInspector.get_build_id], given the standard output of
    [readelf -n]. *)
Definition get_build_id (readelf_out : string) : option string :=
  match find (fun line => contains (list_ascii_of_string "Build ID") line
                          || contains (list_ascii_of_string "BuildID") line)
             (split_nl (list_ascii_of_string readelf_out)) with
  | Some line => Some (string_of_list_ascii (strip line))
  | None => None
  end.

(** Python's [s.endswith(suffix)]. *)
Definition ends_with (suffix s : string) : bool :=
  is_prefix (rev (list_ascii_of_string suffix)) (rev (list_ascii_of_string s)).

(** [main]: [debug_level = 0 if args.quiet else args.debug]. *)
Definition debug_level_of (quiet : bool) (debug : Z) : Z := if quiet then 0%Z else debug.

(** The test of [main]'s print loop: a key is skipped when
    [debug_level < 1] and it ends in [_instructions] or
    [_instructions_percentage]. *)
Definition shown (debug_level : Z) (key : string) : bool :=
  negb ((debug_level <? 1)%Z
        && (ends_with "_instructions" key || ends_with "_instructions_percentage" key)).

(** The keys [main] prints, in order. *)
Definition printed_keys (debug_level : Z) (results : list (string * value)) : list string :=
  map fst (filter (fun kv => shown debug_level (fst kv)) results).

(** A reader of the report's [detected_extensions] and
    [undetected_extensions] fields: ["none"] is the empty list, otherwise
    the field is split on [;]. *)
Fixpoint split_on (sep : ascii) (s : list ascii) : list (list ascii) :=
  match s with
  | [] => [[]]
  | c :: s' =>
      if Ascii.eqb c sep then [] :: split_on sep s'
      else match split_on sep s' with
           | [] => [[c]]
           | l :: ls => (c :: l) :: ls
           end
  end.

Definition parse_extensions (field : string) : list string :=
  if String.eqb field "none" then []
  else map string_of_list_ascii (split_on ";"%char (list_ascii_of_string field)).

(** *** [BinaryInspector.parse_file_info]

    Each pattern of [parse_file_info] is a literal followed by one greedy
    class loop ([lit[cls]+]); once the literal has matched, the greedy
    loop takes the longest run, and a shorter run never lets the rest of
    the pattern succeed (the character after a maximal run is outside the
    class), so the match at a position is decided without backtracking.
    [re.search] takes the leftmost position where the pattern matches. *)

(** [file_info.split(":", 1)[1]] when [":" in file_info]. *)
Fixpoint after_colon (s : list ascii) : option (list ascii) :=
  match s with
  | [] => None
  | c :: s' => if Ascii.eqb c ":" then Some s' else after_colon s'
  end.

(** The longest prefix of characters satisfying [p], and the rest. *)
Fixpoint span (p : ascii -> bool) (s : list ascii) : list ascii * list ascii :=
  match s with
  | [] => ([], [])
  | c :: s' => if p c then let '(r, rest) := span p s' in (c :: r, rest) else ([], s)
  end.

Fixpoint drop_prefix (lit s : list ascii) : option (list ascii) :=
  match lit, s with
  | [], _ => Some s
  | a :: lit', b :: s' => if Ascii.eqb a b then drop_prefix lit' s' else None
  | _ :: _, [] => None
  end.

(** [lit[p]+] at the start of [s]: the run matched by [[p]+] and the text
    after the match. *)
Definition lit_run (lit : string) (p : ascii -> bool) (s : list ascii)
  : option (list ascii * list ascii) :=
  match drop_prefix (list_ascii_of_string lit) s with
  | Some s' => match span p s' with
               | ([], _) => None
               | (r, rest) => Some (r, rest)
               end
  | None => None
  end.

(** [re.search]: the result of the match at the leftmost start position
    (from 0 to [len(s)]) where it succeeds. *)
Fixpoint search_at {A : Type} (m : list ascii -> option A) (s : list ascii) : option A :=
  match m s with
  | Some g => Some g
  | None => match s with [] => None | _ :: s' => search_at m s' end
  end.

Definition not_comma (c : ascii) : bool := negb (Ascii.eqb c ",").
Definition not_rparen (c : ascii) : bool := negb (Ascii.eqb c ")").

(** [(ARM aarch64|x86-64|i386|MIPS)] at one position: the first
    alternative that matches. *)
Definition arch_at (s : list ascii) : option string :=
  find (fun a => is_prefix (list_ascii_of_string a) s)
       ["ARM aarch64"; "x86-64"; "i386"; "MIPS"]%string.

(** [(version \d+ \([^)]+\))] at one position: group 1. *)
Definition version_at (s : list ascii) : option (list ascii) :=
  match lit_run "version " is_digit s with
  | Some (ds, rest) =>
      match lit_run " (" not_rparen rest with
      | Some (inner, rest') =>
          match drop_prefix [")"%char] rest' with
          | Some _ => Some (list_ascii_of_string "version " ++ ds ++
                            list_ascii_of_string " (" ++ inner ++ [")"%char])
          | None => None
          end
      | None => None
      end
  | None => None
  end.

(** The field extraction of [parse_file_info], on the text left after the
    file name prefix is removed. *)
Definition parse_fields (text : list ascii) : file_info :=
  {| binary_format :=
       match lit_run "ELF " not_comma text with
       | Some (r, _) => ("ELF " ++ string_of_list_ascii r)%string
       | None => "unknown" end;
     arch := match search_at arch_at text with Some a => a | None => "unknown" end;
     elf_version :=
       match search_at version_at text with
       | Some g => string_of_list_ascii g
       | None => "unknown" end;
     dynamically_linked := contains (list_ascii_of_string "dynamically linked") text;
     interpreter :=
       match search_at (lit_run "interpreter " not_comma) text with
       | Some (r, _) => string_of_list_ascii (strip r)
       | None => "none" end;
     android_api :=
       match search_at (lit_run "for Android " is_digit) text with
       | Some (r, _) => ("Android " ++ string_of_list_ascii r)%string
       | None => "none" end;
     builder :=
       match search_at (lit_run "built by NDK " not_comma) text with
       | Some (r, _) => ("NDK " ++ string_of_list_ascii r)%string
       | None => "unknown" end;
     build_id_sha1 :=
       match search_at (lit_run "BuildID[sha1]=" is_hex) text with
       | Some (r, _) => string_of_list_ascii r
       | None => "none" end;
     debug_info := contains (list_ascii_of_string "with debug_info") text;
     stripped := contains (list_ascii_of_string "stripped") text
                 && negb (contains (list_ascii_of_string "not stripped") text) |}.

(** [BinaryInspector.parse_file_info(file_info)]. *)
Definition parse_file_info (file_info_text : string) : file_info :=
  let s := list_ascii_of_string file_info_text in
  parse_fields (match after_colon s with Some r => strip r | None => s end).

End Inspect.

(* ------------------------------------------------------------------ *)
(** ** [auxv.print.py]: auxv record decoder and HWCAP expander *)

Module Auxv.

Definition SUPPORTED_ARCH_LIST : list string := ["aarch64"; "x86_64"; "i386"; "i686"]%string.

(** [RuntimeError("Unsupported word size: %d" % ul_size)] *)
Inductive auxv_error : Type :=
| UnsupportedWordSize (ul_size : Z).

Inductive result (A : Type) : Type :=
| Ok (a : A)
| Err (e : auxv_error).
Arguments Ok {A} a.
Arguments Err {A} e.

(** A little-endian word from its bytes (first byte least significant). *)
Fixpoint le_value (bs : list Z) : Z :=
  match bs with
  | [] => 0%Z
  | b :: bs' => (b + 256 * le_value bs')%Z
  end.

Section Host.

(** The interpreter's platform: [ctypes.sizeof(ctypes.c_ulong)] and the
    native byte order used by [struct.unpack] without a prefix. *)
Variable native_ulong_size : Z.
Variable native_little_endian : bool.

(** Word size selection of [parse_auxv] from the [arch] hint. *)
Definition word_size (arch : option string) : Z :=
  match arch with
  | Some a =>
      if String.eqb a "aarch64" || String.eqb a "x86_64" then 8%Z
      else if existsb (String.eqb a) ["i386"; "i686"]%string then 4%Z
      else native_ulong_size
  | None => native_ulong_size
  end.

(** One [Q] / [I] field in native byte order. *)
Definition unpack_word (bs : list Z) : Z :=
  if native_little_endian then le_value bs else le_value (rev bs).

(** [struct.unpack(fmt, chunk)] for [fmt] = ["QQ"] or ["II"]. *)
Definition unpack (word_bytes : nat) (chunk : list Z) : Z * Z :=
  (unpack_word (firstn word_bytes chunk), unpack_word (skipn word_bytes chunk)).

(** [for i in range(0, len(data), step)]: [fuel] iterations remain, the
    current index is [i]. *)
Fixpoint scan (word_bytes step : nat) (data : list Z) (fuel i : nat) : list (Z * Z) :=
  match fuel with
  | 0 => []
  | S f =>
      let chunk := firstn step (skipn i data) in
      if length chunk <? step then []
      else
        let '(a_type, a_val) := unpack word_bytes chunk in
        if (a_type =? 0)%Z then []
        else (a_type, a_val) :: scan word_bytes step data f (i + step)
  end.

(** [len(range(0, n, step))] *)
Definition range_len (n step : nat) : nat := (n + step - 1) / step.

(** [parse_auxv(data, arch)] on a byte buffer. *)
Definition parse_auxv (arch : option string) (data : list Z) : result (list (Z * Z)) :=
  let ul_size := word_size arch in
  if (ul_size =? 8)%Z then Ok (scan 8 16 data (range_len (length data) 16) 0)
  else if (ul_size =? 4)%Z then Ok (scan 4 8 data (range_len (length data) 8) 0)
  else Err (UnsupportedWordSize ul_size).

End Host.

(** Selected HWCAP bits for aarch64. *)
Definition AARCH64_HWCAP : list (Z * string) := [
  (0, "FP"); (1, "ASIMD"); (2, "EVTSTRM"); (3, "AES"); (4, "PMULL");
  (5, "SHA1"); (6, "SHA2"); (7, "CRC32"); (8, "ATOMICS"); (9, "FPHP");
  (10, "ASIMDHP"); (11, "CPUID"); (12, "ASIMDRDM"); (13, "JSCVT");
  (14, "FCMA"); (15, "LRCPC"); (16, "DCPOP"); (17, "SHA3"); (18, "SM3");
  (19, "SM4"); (20, "ASIMDDP"); (21, "SHA512"); (22, "SVE"); (23, "ASIMDFHM");
  (28, "ILRCPC"); (29, "FLAGM"); (30, "SSBS"); (31, "SB")
]%Z%string.

Definition AARCH64_HWCAP2 : list (Z * string) := [
  (0, "DCPODP"); (1, "SVE2"); (2, "SVEAES"); (3, "SVEPMULL"); (4, "SVEBITPERM");
  (5, "SVESHA3"); (6, "SVESM4"); (7, "FLAGM2"); (8, "FRINT"); (9, "SVEI8MM");
  (10, "SVEF32MM"); (11, "SVEF64MM"); (12, "SVEBF16"); (13, "I8MM");
  (14, "BF16"); (15, "DGH"); (16, "RNG"); (17, "BTI"); (20, "MTE");
  (21, "ECV"); (22, "AFP"); (23, "RPRFM"); (28, "MTE3"); (29, "SSELECT");
  (30, "IDST")
]%Z%string.

Definition X86_HWCAP : list (Z * string) := [
  (0, "FPU"); (1, "VME"); (2, "DE"); (3, "PSE"); (4, "TSC"); (5, "MSR");
  (6, "PAE"); (7, "MCE"); (8, "CX8"); (9, "APIC"); (11, "SEP"); (12, "MTRR");
  (13, "PGE"); (14, "MCA"); (15, "CMOV"); (16, "PAT"); (17, "PSE36");
  (19, "CLFLUSH"); (23, "MMX"); (25, "SSE"); (26, "SSE2")
]%Z%string.

(** [bits_to_names(bits, table)]:
    [[name for bit, name in table.items() if (bits >> bit) & 1]]. *)
Definition bits_to_names (bits : Z) (table : list (Z * string)) : list string :=
  map snd (filter (fun e => negb (Z.land (Z.shiftr bits (fst e)) 1 =? 0)%Z) table).

(** Python's [sorted] on [str] (code-point order). *)
Fixpoint insert_sorted (s : string) (l : list string) : list string :=
  match l with
  | [] => [s]
  | x :: l' => if String.leb s x then s :: l else x :: insert_sorted s l'
  end.

Definition sorted (l : list string) : list string := fold_right insert_sorted [] l.

Definition hex_char (d : Z) : ascii :=
  ascii_of_nat (Z.to_nat (if (d <? 10)%Z then 48 + d else 87 + d)%Z).

Fixpoint hex_digits (fuel : nat) (n : Z) (acc : string) : string :=
  match fuel with
  | 0 => acc
  | S f =>
      let acc' := String (hex_char (n mod 16)) acc in
      if (n <? 16)%Z then acc' else hex_digits f (n / 16) acc'
  end.

(** ["%x" % n] *)
Definition hex (n : Z) : string :=
  if (n <? 0)%Z then ("-" ++ hex_digits (S (Z.to_nat (Z.log2 (- n)))) (- n) "")%string
  else hex_digits (S (Z.to_nat (Z.log2 n))) n "".

Definition decode_hwcap (arch : string) (hwcap hwcap2 : Z) : list string :=
  if String.eqb arch "aarch64" then
    let names1 := bits_to_names hwcap AARCH64_HWCAP in
    let names2 := bits_to_names hwcap2 AARCH64_HWCAP2 in
    (match names1 with [] => [] | _ => [("HWCAP:  " ++ String.concat ", " (sorted names1))%string] end) ++
    (match names2 with [] => [] | _ => [("HWCAP2: " ++ String.concat ", " (sorted names2))%string] end)
  else if existsb (String.eqb arch) ["x86_64"; "i386"; "i686"]%string then
    let names := map snd (filter (fun e => negb (Z.land (Z.shiftr hwcap (fst e)) 1 =? 0)%Z) X86_HWCAP) in
    (match names with [] => [] | _ => [("HWCAP:  " ++ String.concat ", " (sorted names))%string] end) ++
    (if (hwcap2 =? 0)%Z then [] else [("HWCAP2: 0x" ++ hex hwcap2 ++ " (rarely used on x86)")%string])
  else [].

(** The buffer of the round-trip property: each (tag, value) pair as two
    [w]-byte little-endian words. *)
Fixpoint encode_word (w : nat) (x : Z) : list Z :=
  match w with
  | 0 => []
  | S w' => (x mod 256)%Z :: encode_word w' (x / 256)%Z
  end.

Definition encode_pairs (w : nat) (pairs : list (Z * Z)) : list Z :=
  flat_map (fun e => encode_word w (fst e) ++ encode_word w (snd e)) pairs.

(** *** The table and HWCAP output of [main] *)

(** [AT_NAMES]. *)
Definition AT_NAMES : list (Z * string) := [
  (0, "AT_NULL"); (1, "AT_IGNORE"); (2, "AT_EXECFD"); (3, "AT_PHDR");
  (4, "AT_PHENT"); (5, "AT_PHNUM"); (6, "AT_PAGESZ"); (7, "AT_BASE");
  (8, "AT_FLAGS"); (9, "AT_ENTRY"); (10, "AT_NOTELF"); (11, "AT_UID");
  (12, "AT_EUID"); (13, "AT_GID"); (14, "AT_EGID"); (15, "AT_CLKTCK");
  (16, "AT_PLATFORM"); (17, "AT_HWCAP"); (18, "AT_FPUCW"); (19, "AT_DCACHEBSIZE");
  (20, "AT_ICACHEBSIZE"); (21, "AT_UCACHEBSIZE"); (22, "AT_IGNOREPPC");
  (23, "AT_SECURE"); (24, "AT_BASE_PLATFORM"); (25, "AT_RANDOM"); (26, "AT_HWCAP2");
  (31, "AT_EXECFN"); (32, "AT_SYSINFO"); (33, "AT_SYSINFO_EHDR");
  (34, "AT_L1I_CACHESHAPE"); (35, "AT_L1D_CACHESHAPE"); (36, "AT_L2_CACHESHAPE");
  (37, "AT_L3_CACHESHAPE")
]%Z%string.

Fixpoint dec_digits (fuel : nat) (n : Z) (acc : string) : string :=
  match fuel with
  | 0 => acc
  | S f =>
      let acc' := String (ascii_of_nat (48 + Z.to_nat (n mod 10))) acc in
      if (n <? 10)%Z then acc' else dec_digits f (n / 10) acc'
  end.

(** ["%d" % n] and [f"{n}"] *)
Definition dec (n : Z) : string :=
  if (n <? 0)%Z then ("-" ++ dec_digits (S (Z.to_nat (Z.log2 (- n)))) (- n) "")%string
  else dec_digits (S (Z.to_nat (Z.log2 n))) n "".

(** [AT_NAMES.get(t, "AT_%d" % t)] *)
Definition at_name (t : Z) : string :=
  match find (fun e => (fst e =? t)%Z) AT_NAMES with
  | Some (_, n) => n
  | None => ("AT_" ++ dec t)%string
  end.

(** [f"{s:<{w}}"]: [s] padded with spaces on the right to width [w]. *)
Definition ljust (s : string) (w : nat) : string :=
  (s ++ string_of_list_ascii (repeat " "%char (w - String.length s)))%string.

(** [name_w] of [main]. *)
Definition name_width (entries : list (Z * Z)) : nat :=
  match entries with
  | [] => 15
  | _ => fold_left Nat.max (map (fun e => String.length (at_name (fst e))) entries) 0
  end.

Definition DECIMAL_NAMES : list string :=
  ["AT_PHENT"; "AT_PHNUM"; "AT_PAGESZ"; "AT_CLKTCK"; "AT_UID"; "AT_EUID";
   "AT_GID"; "AT_EGID"; "AT_SECURE"]%string.

(** One line of [main]'s table; [str_cache] is the lookup of the dict of
    strings read for pointer tags. *)
Definition table_line (name_w : nat) (str_cache : Z -> option string) (e : Z * Z) : string :=
  let '(t, v) := e in
  let name := at_name t in
  match (if existsb (Z.eqb t) [16; 24; 31]%Z then str_cache t else None) with
  | Some str =>
      (ljust name name_w ++ " : 0x" ++ hex v ++ "  " ++
       String "034"%char (str ++ String "034"%char EmptyString))%string
  | None =>
      if (t =? 25)%Z
      then (ljust name name_w ++ " : 0x" ++ hex v ++ "  (pointer to 16 random bytes)")%string
      else if existsb (String.eqb name) DECIMAL_NAMES
      then (ljust name name_w ++ " : " ++ dec v)%string
      else (ljust name name_w ++ " : 0x" ++ hex v)%string
  end.

(** The table printed by [main] after its header line. *)
Definition auxv_table (entries : list (Z * Z)) (str_cache : Z -> option string) : list string :=
  map (table_line (name_width entries) str_cache) entries.

(** [next((v for t, v in entries if t == tag), 0)] *)
Definition first_value (tag : Z) (entries : list (Z * Z)) : Z :=
  match find (fun e => (fst e =? tag)%Z) entries with
  | Some (_, v) => v
  | None => 0%Z
  end.

End Auxv.

(* ------------------------------------------------------------------ *)
(** ** Correctness of the derivative matcher *)

Module RegexFacts.
Import Regex.

Create HintDb regex.
Global Hint Constructors in_re : regex.

Lemma in_re_empty s : ~ in_re Empty s.
Proof. intro H; inversion H. Qed.

Lemma nullable_spec r : nullable r = true <-> in_re r [].
Proof.
  induction r; simpl; split; intro H; try discriminate; auto with regex.
  - inversion H.
  - inversion H.
  - apply orb_true_iff in H as [H|H]; [apply R_altl|apply R_altr]; tauto.
  - inversion H; subst; apply orb_true_iff; tauto.
  - apply andb_true_iff in H as [H1 H2].
    change (@nil ascii) with (@nil ascii ++ []). constructor; tauto.
  - inversion H; subst.
    match goal with E : _ ++ _ = [] |- _ => apply app_eq_nil in E as [-> ->] end.
    apply andb_true_iff; tauto.
Qed.

Lemma alt_spec a b s : in_re (alt a b) s <-> in_re (Alt a b) s.
Proof.
  destruct a, b; simpl; split; intro H; auto with regex;
    try (inversion H; subst; auto with regex; match goal with
      | H' : in_re Empty _ |- _ => inversion H' end).
Qed.

Lemma cat_spec a b s : in_re (cat a b) s <-> in_re (Cat a b) s.
Proof.
  split; intro H.
  - destruct a; simpl in H; try solve [inversion H];
      try (change s with ([] ++ s); auto with regex);
      destruct b; try solve [inversion H]; exact H.
  - inversion H; subst.
    destruct a; simpl; try solve [inversion H2];
      try (inversion H2; subst; exact H4);
      destruct b; try solve [inversion H4]; exact H.
Qed.

Lemma star_cons_inv r c s :
  in_re (Star r) (c :: s) ->
  exists s1 s2, s = s1 ++ s2 /\ in_re r (c :: s1) /\ in_re (Star r) s2.
Proof.
  intro H. remember (Star r) as r0 eqn:E. remember (c :: s) as s0 eqn:Es.
  revert c s Es. induction H; intros c0 s0 Es; try discriminate.
  injection E as ->.
  destruct s1 as [|a s1'].
  - simpl in Es. apply (IHin_re2 eq_refl c0 s0 Es).
  - simpl in Es. injection Es as E1 E2. subst. exists s1', s2. auto.
Qed.

Lemma alt_inv a b s : in_re (Alt a b) s -> in_re a s \/ in_re b s.
Proof. intro H; inversion H; subst; auto. Qed.

Lemma cat_inv a b s :
  in_re (Cat a b) s -> exists s1 s2, s = s1 ++ s2 /\ in_re a s1 /\ in_re b s2.
Proof. intro H; inversion H; subst; eauto. Qed.

Lemma chr_inv n is s : in_re (Chr n is) s -> exists c, s = [c] /\ cls_match n is c = true.
Proof. intro H; inversion H; subst; eauto. Qed.

Lemma eps_inv s : in_re Eps s -> s = [].
Proof. intro H; inversion H; auto. Qed.

Lemma deriv_spec r c s : in_re (deriv c r) s <-> in_re r (c :: s).
Proof.
  revert s. induction r; intro s; simpl.
  - split; intro H; inversion H.
  - split; intro H; inversion H.
  - destruct (cls_match neg items c) eqn:E; split; intro H.
    + apply eps_inv in H; subst. auto with regex.
    + apply chr_inv in H as (c' & Hs & _). injection Hs as -> ->. constructor.
    + inversion H.
    + apply chr_inv in H as (c' & Hs & Hm). injection Hs as -> ->. congruence.
  - rewrite alt_spec. split; intro H; apply alt_inv in H as [H|H].
    + apply R_altl; apply IHr1; auto.
    + apply R_altr; apply IHr2; auto.
    + apply R_altl; apply IHr1; auto.
    + apply R_altr; apply IHr2; auto.
  - split; intro H.
    + assert (HL : in_re (cat (deriv c r1) r2) s -> in_re (Cat r1 r2) (c :: s)).
      { intro H'. apply cat_spec, cat_inv in H' as (s1 & s2 & -> & H1 & H2).
        change (c :: s1 ++ s2) with ((c :: s1) ++ s2). constructor; auto.
        apply IHr1; auto. }
      destruct (nullable r1) eqn:N; auto.
      apply alt_spec, alt_inv in H as [H|H]; auto.
      change (c :: s) with ([] ++ c :: s). constructor.
      * apply nullable_spec; auto.
      * apply IHr2; auto.
    + apply cat_inv in H as (s1 & s2 & E & H1 & H2). destruct s1 as [|a s1'].
      * simpl in E; subst.
        assert (N : nullable r1 = true) by (apply nullable_spec; auto).
        rewrite N. apply alt_spec. apply R_altr. apply IHr2; auto.
      * simpl in E. injection E as E1 E2. subst.
        assert (D : in_re (cat (deriv a r1) r2) (s1' ++ s2))
          by (apply cat_spec; constructor; [apply IHr1|]; auto).
        destruct (nullable r1); [apply alt_spec; apply R_altl|]; auto.
  - rewrite cat_spec. split; intro H.
    + apply cat_inv in H as (s1 & s2 & -> & H1 & H2).
      change (c :: s1 ++ s2) with ((c :: s1) ++ s2). constructor; auto.
      apply IHr; auto.
    + apply star_cons_inv in H as (s1 & s2 & -> & H1 & H2).
      constructor; [apply IHr|]; auto.
Qed.

Lemma prefix_match_spec r s :
  prefix_match r s = true <-> exists p q, s = p ++ q /\ in_re r p.
Proof.
  revert r. induction s as [|c s IH]; intro r; simpl.
  - rewrite orb_false_r, nullable_spec. split.
    + intro H. exists [], []. auto.
    + intros (p & q & E & H). symmetry in E. apply app_eq_nil in E as [-> ->]. auto.
  - rewrite orb_true_iff, nullable_spec, IH. split.
    + intros [H | (p & q & -> & H)].
      * exists [], (c :: s). auto.
      * exists (c :: p), q. split; auto. apply deriv_spec; auto.
    + intros (p & q & E & H). destruct p as [|a p].
      * left; auto.
      * injection E as -> ->. right. exists p, q. split; auto. apply deriv_spec; auto.
Qed.

Lemma search_spec r s :
  search r s = true <-> exists a m b, s = a ++ m ++ b /\ in_re r m.
Proof.
  induction s as [|c s IH].
  - change (search r []) with (prefix_match r [] || false).
    rewrite orb_false_r, prefix_match_spec. split.
    + intros (p & q & E & H). exists [], p, q. auto.
    + intros (a & m & b & E & H). symmetry in E.
      apply app_eq_nil in E as [-> E]. apply app_eq_nil in E as [-> ->].
      exists [], []. auto.
  - change (search r (c :: s)) with (prefix_match r (c :: s) || search r s).
    rewrite orb_true_iff, prefix_match_spec, IH. split.
    + intros [(p & q & E & H) | (a & m & b & -> & H)].
      * exists [], p, q. auto.
      * exists (c :: a), m, b. auto.
    + intros (a & m & b & E & H). destruct a as [|x a].
      * left. exists m, b. auto.
      * injection E as -> ->. right. exists a, m, b. auto.
Qed.

Lemma is_empty_spec r s : is_empty r = true -> ~ in_re r s.
Proof.
  revert s; induction r; simpl; intros s E H; try discriminate.
  - inversion H.
  - apply andb_true_iff in E as [E1 E2].
    apply alt_inv in H as [H|H]; [eapply IHr1 | eapply IHr2]; eauto.
  - apply cat_inv in H as (s1 & s2 & _ & H1 & H2).
    apply orb_true_iff in E as [E|E]; [eapply IHr1 | eapply IHr2]; eauto.
Qed.

Lemma all_chars_complete c : In c all_chars.
Proof.
  unfold all_chars. rewrite <- (ascii_nat_embedding c).
  apply in_map, in_seq. pose proof (nat_ascii_bounded c). lia.
Qed.

(** A property of characters checked on the 256 of them holds of all. *)
Lemma forall_chars (P : ascii -> bool) : forallb P all_chars = true -> forall c, P c = true.
Proof. intros H c. rewrite forallb_forall in H. apply H, all_chars_complete. Qed.

Lemma ws_then_nondigit_spec r s :
  ws_then_nondigit r = true -> in_re r s ->
  exists w l t, s = w :: l :: t /\ is_space w = true /\
                is_space l = false /\ is_digit l = false.
Proof.
  unfold ws_then_nondigit. intros E H.
  apply andb_true_iff in E as [N F].
  destruct s as [|w s].
  - apply nullable_spec in H. rewrite H in N. discriminate.
  - pose proof (forall_chars _ F w) as Fw. cbv beta in Fw.
    apply deriv_spec in H.
    destruct (is_space w) eqn:Sw.
    + apply andb_true_iff in Fw as [N2 F2].
      destruct s as [|l t].
      * apply nullable_spec in H. rewrite H in N2. discriminate.
      * pose proof (forall_chars _ F2 l) as Fl. cbv beta in Fl.
        apply deriv_spec in H.
        destruct (is_space l) eqn:Sl; cbn [orb] in Fl.
        -- exfalso. eapply is_empty_spec; eauto.
        -- destruct (is_digit l) eqn:Dl.
           ++ exfalso. eapply is_empty_spec; eauto.
           ++ exists w, l, t. auto.
    + exfalso. eapply is_empty_spec; eauto.
Qed.

Section AddressField.

Variable r : re.
Hypothesis Hr : ws_then_nondigit r = true.

Lemma pm_nil : prefix_match r [] = false.
Proof.
  apply not_true_iff_false. intro H. apply prefix_match_spec in H as (p & q & E & H).
  symmetry in E. apply app_eq_nil in E as [-> ->].
  apply ws_then_nondigit_spec in H as (w & l & t & E & _); auto. discriminate.
Qed.

Lemma pm_nonspace c s : is_space c = false -> prefix_match r (c :: s) = false.
Proof.
  intro Sc. apply not_true_iff_false. intro H.
  apply prefix_match_spec in H as (p & q & E & H).
  apply ws_then_nondigit_spec in H as (w & l & t & -> & Sw & _); auto.
  injection E as -> _. congruence.
Qed.

Lemma pm_next c d s :
  is_space d || is_digit d = true -> prefix_match r (c :: d :: s) = false.
Proof.
  intro Sd. apply not_true_iff_false. intro H.
  apply prefix_match_spec in H as (p & q & E & H).
  apply ws_then_nondigit_spec in H as (w & l & t & -> & _ & Sl & Dl); auto.
  injection E as -> -> _. rewrite Sl, Dl in Sd. discriminate.
Qed.

Lemma hex_not_space c : is_hex c = true -> is_space c = false.
Proof.
  pose proof (forall_chars (fun c => negb (is_hex c && is_space c)) ltac:(vm_compute; reflexivity) c) as H.
  cbv beta in H. intro Hx. rewrite Hx in H. destruct (is_space c); auto.
Qed.

Lemma search_cons c s : search r (c :: s) = prefix_match r (c :: s) || search r s.
Proof. reflexivity. Qed.

Lemma search_skip_hex addr s :
  forallb is_hex addr = true -> search r (addr ++ s) = search r s.
Proof.
  induction addr as [|c addr IH]; intro H; auto.
  cbn [forallb] in H. apply andb_true_iff in H as [Hc H].
  cbn [app]. rewrite search_cons.
  rewrite pm_nonspace by (apply hex_not_space; auto). apply IH; auto.
Qed.

Lemma search_skip_spaces pre d s :
  forallb is_space pre = true -> is_digit d = true ->
  search r (pre ++ d :: s) = search r (d :: s).
Proof.
  induction pre as [|c pre IH]; intros H Dd; auto.
  cbn [forallb] in H. apply andb_true_iff in H as [Hc H].
  cbn [app]. rewrite search_cons, <- (IH H Dd).
  destruct pre as [|c' pre'].
  - cbn [app]. rewrite pm_next by (rewrite Dd; apply orb_true_r). reflexivity.
  - cbn [forallb] in H. apply andb_true_iff in H as [Hc' H'].
    cbn [app]. rewrite pm_next by (rewrite Hc'; reflexivity). reflexivity.
Qed.

(** Leading whitespace and an address starting with a decimal digit are
    never part of a match. *)
Lemma search_past_address pre d addr s :
  forallb is_space pre = true -> is_digit d = true -> forallb is_hex addr = true ->
  search r (pre ++ d :: addr ++ s) = search r s.
Proof.
  intros Hp Dd Ha. rewrite search_skip_spaces by auto.
  apply (search_skip_hex (d :: addr)). simpl.
  unfold is_hex at 1. rewrite Dd. auto.
Qed.

End AddressField.

End RegexFacts.

(* ------------------------------------------------------------------ *)
(** ** Facts about the classifier *)

Module InspectFacts.
Import Regex RegexFacts Inspect.

Lemma nodupb_NoDup l : nodupb l = true -> NoDup l.
Proof.
  induction l as [|x l IH]; simpl; intro H; constructor.
  - apply andb_true_iff in H as [H _]. intro Hin.
    apply negb_true_iff in H. apply not_true_iff_false in H. apply H.
    apply existsb_exists. exists x. split; auto. apply String.eqb_refl.
  - apply IH. apply andb_true_iff in H; tauto.
Qed.

Lemma registry_keys_nodup : NoDup (map fst INSPECT_ARRAY).
Proof. apply nodupb_NoDup. vm_compute. reflexivity. Qed.

Lemma report_keys_nodup : NoDup (META_KEYS ++ ext_keys INSPECT_ARRAY).
Proof. apply nodupb_NoDup. vm_compute. reflexivity. Qed.

Lemma nodup_fst_unique {A B} (l : list (A * B)) e1 e2 :
  NoDup (map fst l) -> In e1 l -> In e2 l -> fst e1 = fst e2 -> e1 = e2.
Proof.
  induction l as [|e l IH]; simpl; intros N H1 H2 E; [contradiction|].
  inversion N as [|x l' Hx N' Hxl]; subst.
  destruct H1 as [<-|H1], H2 as [<-|H2]; auto.
  - exfalso. apply Hx. rewrite E. apply in_map; auto.
  - exfalso. apply Hx. rewrite <- E. apply in_map; auto.
Qed.

(** *** Line splitting and counting *)

Lemma split_nl_no_newline s line :
  In line (split_nl s) -> ~ In newline line.
Proof.
  revert line. induction s as [|c s IH]; simpl; intros line H.
  - destruct H as [<-|[]]. simpl. tauto.
  - destruct (Ascii.eqb c newline) eqn:E.
    + destruct H as [<-|H]; [simpl; tauto | apply IH; auto].
    + destruct (split_nl s) as [|l ls] eqn:S.
      * destruct H as [<-|[]]. simpl. intros [H|[]].
        subst. rewrite Ascii.eqb_refl in E. discriminate.
      * destruct H as [<-|H].
        -- simpl. intros [H|H].
           ++ subst. rewrite Ascii.eqb_refl in E. discriminate.
           ++ apply (IH l); auto. left; auto.
        -- apply IH. right; auto.
Qed.

Lemma count_fold (a b : list ascii -> bool) lines n :
  fold_left (fun count line => if a line then if b line then S count else count else count)
    lines n = n + length (filter (fun l => a l && b l) lines).
Proof.
  revert n. induction lines as [|l lines IH]; intro n; simpl; [lia|].
  rewrite IH. destruct (a l), (b l); simpl; lia.
Qed.

Definition lines_of (disasm : string) : list (list ascii) :=
  split_nl (list_ascii_of_string disasm).

Lemma count_filter disasm pattern :
  count_instructions disasm pattern =
  length (filter (fun l => re_search INSN_LINE l && re_search pattern l) (lines_of disasm)).
Proof. unfold count_instructions. rewrite count_fold. reflexivity. Qed.

Lemma filter_length_mono {A} (f g : A -> bool) l :
  (forall x, In x l -> f x = true -> g x = true) ->
  length (filter f l) <= length (filter g l).
Proof.
  induction l as [|x l IH]; simpl; intro H; auto.
  destruct (f x) eqn:Fx.
  - rewrite (H x (or_introl eq_refl) Fx). simpl.
    apply le_n_S, IH. intros y Hy; apply H; auto.
  - destruct (g x); simpl; [apply le_S|]; apply IH; intros y Hy; apply H; auto.
Qed.

Lemma insn_line_nonempty : re_search INSN_LINE [] = false.
Proof. vm_compute. reflexivity. Qed.

Lemma dot_matches c l : c <> newline -> re_search "." (c :: l) = true.
Proof.
  intro Hc. unfold re_search.
  assert (E : compile "." = Some (false, Chr true [IChar newline])) by (vm_compute; reflexivity).
  rewrite E. cbn [search prefix_match nullable deriv orb].
  unfold cls_match. cbn [existsb citem_match].
  destruct (Ascii.eqb newline c) eqn:Ec.
  - apply Ascii.eqb_eq in Ec. congruence.
  - cbn [orb xorb]. destruct l; reflexivity.
Qed.

(** An instruction line is matched by ["."], so the total counts it. *)
Lemma insn_line_counted disasm line :
  In line (lines_of disasm) -> re_search INSN_LINE line = true -> re_search "." line = true.
Proof.
  intros Hin Hi. destruct line as [|c l].
  - rewrite insn_line_nonempty in Hi. discriminate.
  - apply dot_matches. intro E. subst.
    apply (split_nl_no_newline _ _ Hin). left; auto.
Qed.

Lemma count_le_total disasm pattern :
  count_instructions disasm pattern <= count_instructions disasm ".".
Proof.
  rewrite !count_filter. apply filter_length_mono.
  intros l Hin H. apply andb_true_iff in H as [H1 _].
  rewrite H1. simpl. eapply insn_line_counted; eauto.
Qed.

Lemma percentage_bounds c t :
  c <= t -> (0 <= percentage c t <= 100)%Q.
Proof.
  intro H. unfold percentage. destruct (0 <? t) eqn:T.
  - apply Nat.ltb_lt in T.
    assert (Tq : (0 < inject_Z (Z.of_nat t))%Q)
      by (change 0%Q with (inject_Z 0); rewrite <- Zlt_Qlt; lia).
    split.
    + apply Qle_shift_div_l; auto.
      rewrite Qmult_0_l. change 100%Q with (inject_Z 100). change 0%Q with (inject_Z 0).
      rewrite <- inject_Z_mult, <- Zle_Qle. lia.
    + apply Qle_shift_div_r; auto.
      change 100%Q with (inject_Z 100).
      rewrite <- !inject_Z_mult, <- Zle_Qle. lia.
  - split; discriminate.
Qed.


(** *** The [OrderedDict] and the extension loop *)

Lemma odict_set_fresh k v d :
  ~ In k (map fst d) -> odict_set k v d = d ++ [(k, v)].
Proof.
  induction d as [|[k' v'] d IH]; simpl; intro H; auto.
  destruct (String.eqb k k') eqn:E.
  - apply String.eqb_eq in E. subst. tauto.
  - rewrite IH; auto.
Qed.

Lemma odict_update_fresh d e :
  NoDup (map fst d ++ map fst e) -> odict_update d e = d ++ e.
Proof.
  unfold odict_update. revert d. induction e as [|[k v] e IH]; simpl; intros d N.
  - rewrite app_nil_r. reflexivity.
  - rewrite odict_set_fresh.
    + rewrite IH.
      * rewrite <- app_assoc. reflexivity.
      * rewrite map_app, <- app_assoc. exact N.
    + intro Hk. apply (NoDup_remove_2 _ _ _ N). apply in_or_app. left; auto.
Qed.

Lemma ext_entries_keys d t reg : map fst (ext_entries d t reg) = ext_keys reg.
Proof.
  induction reg as [|e reg IH]; simpl; auto. rewrite IH. reflexivity.
Qed.

Lemma loop_spec d t reg det und er :
  NoDup (map fst er ++ ext_keys reg) ->
  fold_left (extension_step d t) reg (det, und, er) =
  (det ++ map fst (filter (fun e => 0 <? count_instructions d (snd e)) reg),
   und ++ map fst (filter (fun e => negb (0 <? count_instructions d (snd e))) reg),
   er ++ ext_entries d t reg).
Proof.
  revert det und er. induction reg as [|[n p] reg IH]; intros det und er N; simpl.
  - rewrite !app_nil_r. reflexivity.
  - simpl in N.
    set (k1 := (n ++ "_instructions")%string) in *.
    set (k2 := (n ++ "_instructions_percentage")%string) in *.
    set (c := count_instructions d p).
    assert (F1 : ~ In k1 (map fst er)).
    { intro H. apply (NoDup_remove_2 _ _ _ N). apply in_or_app; left; auto. }
    rewrite (odict_set_fresh k1) by exact F1.
    assert (F2 : ~ In k2 (map fst (er ++ [(k1, VInt c)]))).
    { rewrite map_app. simpl. intro H.
      assert (N' : NoDup ((map fst er ++ [k1]) ++ k2 :: ext_keys reg))
        by (rewrite <- app_assoc; exact N).
      apply (NoDup_remove_2 _ _ _ N'). apply in_or_app; left; auto. }
    rewrite (odict_set_fresh k2) by exact F2.
    assert (N2 : NoDup (map fst ((er ++ [(k1, VInt c)]) ++ [(k2, VFloat (percentage c t))])
                        ++ ext_keys reg)).
    { rewrite !map_app. simpl. rewrite <- !app_assoc. exact N. }
    destruct (0 <? c) eqn:C; simpl; rewrite IH by exact N2;
      rewrite <- !app_assoc; reflexivity.
Qed.

Lemma extension_loop_spec d t :
  extension_loop INSPECT_ARRAY d t = (detected_of d, undetected_of d, ext_entries d t INSPECT_ARRAY).
Proof.
  unfold extension_loop.
  assert (N : NoDup (map fst (@nil (string * value)) ++ ext_keys INSPECT_ARRAY))
    by (cbn [map app]; exact (NoDup_app_remove_l _ _ report_keys_nodup)).
  rewrite (loop_spec d t INSPECT_ARRAY [] [] [] N), !app_nil_l.
  unfold detected_of, undetected_of. reflexivity.
Qed.

(** The report: the fifteen metadata entries, then two entries per
    category in registry order. *)
Lemma inspect_shape bn info sz d :
  inspect bn info sz d =
  meta_entries bn info sz (detected_of d) (undetected_of d) (count_instructions d ".")
  ++ ext_entries d (count_instructions d ".") INSPECT_ARRAY.
Proof.
  unfold inspect. rewrite extension_loop_spec.
  remember (count_instructions d ".") as t.
  remember (detected_of d) as det.
  remember (undetected_of d) as und.
  assert (K : map fst (ext_entries d t INSPECT_ARRAY) = ext_keys INSPECT_ARRAY)
    by apply ext_entries_keys.
  remember (ext_entries d t INSPECT_ARRAY) as E.
  rewrite odict_update_fresh.
  - reflexivity.
  - rewrite K. exact report_keys_nodup.
Qed.

Lemma inspect_keys bn info sz d :
  map fst (inspect bn info sz d) = META_KEYS ++ ext_keys INSPECT_ARRAY.
Proof. rewrite inspect_shape, map_app, ext_entries_keys. reflexivity. Qed.

Lemma odict_get_in l k v :
  NoDup (map fst l) -> In (k, v) l -> odict_get k l = Some v.
Proof.
  induction l as [|[k' v'] l IH]; simpl; intros N H; [contradiction|].
  inversion N as [|x l' Hx N' Hxl]; subst.
  destruct H as [H|H].
  - injection H as -> ->. rewrite String.eqb_refl. reflexivity.
  - destruct (String.eqb k k') eqn:E; auto.
    apply String.eqb_eq in E; subst. exfalso. apply Hx.
    apply (in_map fst) in H. exact H.
Qed.

(** The two entries of a category in the report. *)
Lemma inspect_category bn info sz d n p :
  In (n, p) INSPECT_ARRAY ->
  let c := count_instructions d p in
  odict_get (n ++ "_instructions") (inspect bn info sz d) = Some (VInt c) /\
  odict_get (n ++ "_instructions_percentage") (inspect bn info sz d)
    = Some (VFloat (percentage c (count_instructions d "."))).
Proof.
  intro Hin. cbv zeta. pose proof (inspect_keys bn info sz d) as K.
  assert (N : NoDup (map fst (inspect bn info sz d)))
    by (rewrite K; exact report_keys_nodup).
  rewrite inspect_shape in N |- *.
  assert (Hin' : forall kv, In kv (ext_entries d (count_instructions d ".") INSPECT_ARRAY) ->
                 In kv (meta_entries bn info sz (detected_of d) (undetected_of d)
                          (count_instructions d ".")
                        ++ ext_entries d (count_instructions d ".") INSPECT_ARRAY))
    by (intros; apply in_or_app; right; auto).
  split; apply odict_get_in; auto; apply Hin'; unfold ext_entries;
    apply in_flat_map; exists (n, p); split; auto; simpl; auto.
Qed.

Lemma inspect_total bn info sz d :
  odict_get "total_instructions" (inspect bn info sz d) = Some (VInt (count_instructions d ".")).
Proof.
  apply odict_get_in.
  - rewrite inspect_keys. exact report_keys_nodup.
  - rewrite inspect_shape. apply in_or_app. left. unfold meta_entries.
    do 14 right. left. reflexivity.
Qed.

End InspectFacts.

(* ------------------------------------------------------------------ *)
(** ** Facts about the registry and the report *)

Module ClassifierFacts.
Import Regex RegexFacts Inspect InspectFacts.

Ltac in_registry := repeat (first [left; reflexivity | right]).

Lemma registry_compiles n p :
  In (n, p) INSPECT_ARRAY ->
  exists r, compile p = Some (false, r) /\ ws_then_nondigit r = true.
Proof.
  intro Hin.
  assert (Hall : forallb (fun e => match compile (snd e) with
                                   | Some (false, r) => ws_then_nondigit r
                                   | _ => false end) INSPECT_ARRAY = true)
    by (vm_compute; reflexivity).
  rewrite forallb_forall in Hall. specialize (Hall _ Hin). cbn [snd] in Hall.
  destruct (compile p) as [[[|] r]|]; try discriminate. eauto.
Qed.

Lemma count_zero_percentage t : (percentage 0 t == 0)%Q.
Proof.
  unfold percentage. destruct (0 <? t).
  - unfold Qdiv. change (inject_Z (Z.of_nat 0)) with 0%Q.
    rewrite !Qmult_0_l. reflexivity.
  - reflexivity.
Qed.

Lemma no_insn_count_zero d p :
  (forall line, In line (split_nl (list_ascii_of_string d)) -> re_search INSN_LINE line = false) ->
  count_instructions d p = 0.
Proof.
  intro H. rewrite count_filter.
  assert (L : length (filter (fun l => re_search INSN_LINE l && re_search p l) (lines_of d))
              <= length (filter (fun _ => false) (lines_of d))).
  { apply filter_length_mono. intros x Hx E. rewrite (H x Hx) in E. discriminate. }
  assert (Z0 : forall l : list (list ascii), filter (fun _ => false) l = []).
  { induction l; simpl; auto. }
  rewrite Z0 in L. simpl in L. lia.
Qed.

Lemma filter_split_cover {A B} (l : list (A * B)) (f : A * B -> bool) n :
  In n (map fst l) <->
  In n (map fst (filter f l)) \/ In n (map fst (filter (fun e => negb (f e)) l)).
Proof.
  rewrite !in_map_iff. split.
  - intros (e & <- & Hin). destruct (f e) eqn:C.
    + left. exists e. split; [reflexivity|]. apply filter_In. split; [exact Hin|exact C].
    + right. exists e. split; [reflexivity|]. apply filter_In. rewrite C. split; [exact Hin|reflexivity].
  - intros [(e & <- & Hin) | (e & <- & Hin)]; apply filter_In in Hin as [Hin _];
      exists e; (split; [reflexivity | exact Hin]).
Qed.

Lemma filter_split_disjoint {A B} (l : list (A * B)) (f : A * B -> bool) n :
  NoDup (map fst l) ->
  In n (map fst (filter f l)) -> In n (map fst (filter (fun e => negb (f e)) l)) -> False.
Proof.
  intros N H1 H2.
  apply in_map_iff in H1 as (e1 & E1 & H1). apply in_map_iff in H2 as (e2 & E2 & H2).
  apply filter_In in H1 as [H1 C1]. apply filter_In in H2 as [H2 C2].
  assert (e1 = e2) by (apply (nodup_fst_unique l); [exact N | exact H1 | exact H2 | congruence]).
  subst e2. rewrite C1 in C2. discriminate.
Qed.

Lemma filter_fst_iff {A B} (l : list (A * B)) (f : A * B -> bool) n p :
  NoDup (map fst l) -> In (n, p) l -> (In n (map fst (filter f l)) <-> f (n, p) = true).
Proof.
  intros N Hin. rewrite in_map_iff. split.
  - intros ([n' p'] & E & Hf). apply filter_In in Hf as [Hf C]. simpl in E. subst n'.
    assert (E' : (n, p') = (n, p)) by (apply (nodup_fst_unique l); [exact N | exact Hf | exact Hin | reflexivity]).
    rewrite E' in C. exact C.
  - intro C. exists (n, p). split; [reflexivity|]. apply filter_In. split; [exact Hin|exact C].
Qed.

Lemma partition_cover d n :
  In n (map fst INSPECT_ARRAY) <-> In n (detected_of d) \/ In n (undetected_of d).
Proof. exact (filter_split_cover INSPECT_ARRAY _ n). Qed.

Lemma partition_disjoint d n :
  In n (detected_of d) -> In n (undetected_of d) -> False.
Proof. exact (filter_split_disjoint INSPECT_ARRAY _ n registry_keys_nodup). Qed.

Lemma detected_iff_count d n p :
  In (n, p) INSPECT_ARRAY -> (In n (detected_of d) <-> 0 < count_instructions d p).
Proof.
  intro Hin. unfold detected_of. rewrite (filter_fst_iff INSPECT_ARRAY _ n p registry_keys_nodup Hin).
  cbn [snd]. apply Nat.ltb_lt.
Qed.

Lemma inspect_detected bn info sz d :
  odict_get "detected_extensions" (inspect bn info sz d) = Some (VStr (join_or_none (detected_of d))).
Proof.
  apply odict_get_in.
  - rewrite inspect_keys. exact report_keys_nodup.
  - rewrite inspect_shape. apply in_or_app. left. right. left. reflexivity.
Qed.

Lemma inspect_undetected bn info sz d :
  odict_get "undetected_extensions" (inspect bn info sz d) = Some (VStr (join_or_none (undetected_of d))).
Proof.
  apply odict_get_in.
  - rewrite inspect_keys. exact report_keys_nodup.
  - rewrite inspect_shape. apply in_or_app. left. right. right. left. reflexivity.
Qed.

Lemma star_chr_all is s :
  in_re (Star (Chr false is)) s -> forallb (cls_match false is) s = true.
Proof.
  intro H. remember (Star (Chr false is)) as r eqn:Er. revert Er.
  induction H; intro Er; try discriminate.
  - reflexivity.
  - injection Er as ->. apply chr_inv in H as (c & -> & Hc).
    cbn [app forallb]. rewrite Hc. apply IHin_re2. reflexivity.
Qed.

Lemma space_class c : cls_match false [ISpace] c = is_space c.
Proof. unfold cls_match. cbn [existsb citem_match xorb]. apply orb_false_r. Qed.

Lemma hex_class c : cls_match false [IRange "0" "9"; IRange "a" "f"]%char c = is_hex c.
Proof.
  apply Bool.eqb_prop. revert c. apply forall_chars. vm_compute. reflexivity.
Qed.

Lemma forallb_class_ext (f g : ascii -> bool) s :
  (forall c, f c = g c) -> forallb f s = forallb g s.
Proof. intro H. induction s as [|c s IH]; simpl; [reflexivity|]. rewrite H, IH. reflexivity. Qed.

(** What [re.search(r"^\s+[0-9a-f]+:", line)] accepts: the line starts
    with whitespace, then lowercase hexadecimal digits, then a colon. *)
Lemma insn_line_shape line :
  re_search INSN_LINE line = true ->
  exists pre hs rest, line = pre ++ hs ++ (":"%char :: rest) /\
    pre <> [] /\ forallb is_space pre = true /\ hs <> [] /\ forallb is_hex hs = true.
Proof.
  intro H. unfold re_search in H.
  assert (E : compile INSN_LINE =
    Some (true, Cat (Cat (Chr false [ISpace]) (Star (Chr false [ISpace])))
                  (Cat (Cat (Chr false [IRange "0" "9"; IRange "a" "f"]%char)
                            (Star (Chr false [IRange "0" "9"; IRange "a" "f"]%char)))
                       (Chr false [IChar ":"%char]))))
    by (vm_compute; reflexivity).
  rewrite E in H. cbv beta iota in H.
  apply prefix_match_spec in H as (m & rest & -> & Hm).
  apply cat_inv in Hm as (s1 & s2 & -> & H1 & H2).
  apply cat_inv in H1 as (a1 & b1 & -> & A1 & B1).
  apply cat_inv in H2 as (s3 & s4 & -> & H3 & H4).
  apply cat_inv in H3 as (a3 & b3 & -> & A3 & B3).
  apply chr_inv in A1 as (c1 & -> & C1). apply chr_inv in A3 as (c3 & -> & C3).
  apply chr_inv in H4 as (c4 & -> & C4).
  apply star_chr_all in B1. apply star_chr_all in B3.
  unfold cls_match in C4. cbn [existsb citem_match xorb] in C4.
  rewrite orb_false_r in C4. apply Ascii.eqb_eq in C4. subst c4.
  exists (c1 :: b1), (c3 :: b3), rest. repeat split; try discriminate.
  - rewrite <- !app_assoc. reflexivity.
  - cbn [forallb]. rewrite <- space_class, C1. cbn [andb].
    rewrite (forallb_class_ext _ _ _ space_class) in B1. rewrite B1. reflexivity.
  - cbn [forallb]. rewrite <- hex_class, C3. cbn [andb].
    rewrite (forallb_class_ext _ _ _ hex_class) in B3. rewrite B3. reflexivity.
Qed.

(** The two [sha] rules: [sha512]'s pattern is one alternative of [sha2]'s. *)
Lemma sha512_in_sha2 line :
  re_search (registry_pattern "sha512") line = true ->
  re_search (registry_pattern "sha2") line = true.
Proof.
  unfold re_search.
  remember (compile (registry_pattern "sha512")) as c1 eqn:E1.
  remember (compile (registry_pattern "sha2")) as c2 eqn:E2.
  vm_compute in E1. vm_compute in E2. subst c1 c2. cbv beta iota.
  intro H. apply search_spec in H as (a & m & b & -> & Hm). apply search_spec.
  exists a, m, b. split; [reflexivity|].
  apply cat_inv in Hm as (s1 & s2 & -> & H1 & H2).
  apply R_cat; [exact H1|]. apply R_altr. exact H2.
Qed.

End ClassifierFacts.

(* ------------------------------------------------------------------ *)
(** ** Claims about the pattern registry and the classifier *)

Module ClassifierClaims.
Import Regex RegexFacts Inspect InspectFacts ClassifierFacts.

(** C2 (amended). Every rule of the registry only matches text that starts
    with a whitespace character followed by a character that is neither
    whitespace nor a decimal digit. Hence two instruction lines that agree
    except in their hexadecimal address field are matched identically by
    every rule, as long as both address fields start with a decimal
    digit. *)
Theorem rule_ignores_digit_led_address n p pre d1 a1 d2 a2 rest :
  In (n, p) INSPECT_ARRAY ->
  forallb is_space pre = true ->
  is_digit d1 = true -> forallb is_hex a1 = true ->
  is_digit d2 = true -> forallb is_hex a2 = true ->
  re_search p (pre ++ d1 :: a1 ++ ":"%char :: rest) =
  re_search p (pre ++ d2 :: a2 ++ ":"%char :: rest).
Proof.
  intros Hin Hp D1 A1 D2 A2.
  destruct (registry_compiles n p Hin) as (r & Hc & Hr).
  unfold re_search. rewrite Hc.
  rewrite (search_past_address r Hr pre d1 a1), (search_past_address r Hr pre d2 a2); auto.
Qed.

Lemma rule_ignores_digit_led_address_witness :
  re_search (registry_pattern "asimd")
    ([" "; " "; " "] ++ "4" :: ["0"; "1"; "0"; "0"] ++ ":" :: list_ascii_of_string " add v0.4s, v1.4s, v2.4s")%char
  = re_search (registry_pattern "asimd")
    ([" "; " "; " "] ++ "1" :: ["f"; "f"; "f"; "0"] ++ ":" :: list_ascii_of_string " add v0.4s, v1.4s, v2.4s")%char.
Proof.
  apply (rule_ignores_digit_led_address "asimd"); try reflexivity.
  left. reflexivity.
Defined.

(** C2 (counterexample). The address field [fadd0] is a hexadecimal
    offset, and the [asimd] rule matches it: two instruction lines that
    differ only in their address are classified differently. *)
Lemma address_field_false_positive :
  let line1 := list_ascii_of_string "   fadd0: d503201f nop" in
  let line2 := list_ascii_of_string "   10000: d503201f nop" in
  re_search INSN_LINE line1 = true /\ re_search INSN_LINE line2 = true /\
  re_search (registry_pattern "asimd") line1 = true /\
  re_search (registry_pattern "asimd") line2 = false.
Proof. vm_compute. repeat split. Qed.

(** C5. In every report the detected and undetected lists are disjoint
    and together hold exactly the registry categories, and the report shows
    them joined. Every category has a count entry and a percentage entry,
    the percentage is 0 when the count is 0, and a category is detected
    exactly when its count is positive. The key list of the report is the
    same for every input. *)
Theorem report_partition_and_keys bn info sz d :
  let st := extension_loop INSPECT_ARRAY d (count_instructions d ".") in
  let det := fst (fst st) in
  let und := snd (fst st) in
  let out := inspect bn info sz d in
  (forall n, In n (map fst INSPECT_ARRAY) <-> In n det \/ In n und) /\
  (forall n, In n det -> In n und -> False) /\
  odict_get "detected_extensions" out = Some (VStr (join_or_none det)) /\
  odict_get "undetected_extensions" out = Some (VStr (join_or_none und)) /\
  (forall n p, In (n, p) INSPECT_ARRAY ->
     exists c q, odict_get (n ++ "_instructions") out = Some (VInt c) /\
                 odict_get (n ++ "_instructions_percentage") out = Some (VFloat q) /\
                 (c = 0 -> (q == 0)%Q) /\ (In n det <-> 0 < c)) /\
  (forall bn' info' sz' d', map fst out = map fst (inspect bn' info' sz' d')).
Proof.
  intros st det und out. subst st det und out.
  rewrite extension_loop_spec. cbn [fst snd].
  split; [|split; [|split; [|split; [|split]]]].
  - intro n. apply partition_cover.
  - intro n. apply partition_disjoint.
  - apply inspect_detected.
  - apply inspect_undetected.
  - intros n p Hin. destruct (inspect_category bn info sz d n p Hin) as [G1 G2].
    exists (count_instructions d p), (percentage (count_instructions d p) (count_instructions d ".")).
    split; [exact G1|split; [exact G2|split]].
    + intro C. rewrite C. apply count_zero_percentage.
    + apply detected_iff_count. exact Hin.
  - intros. rewrite !inspect_keys. reflexivity.
Qed.

(** C7. On the one-line stream ["  401000: sdot v0.4s, v1.16b, v2.16b"]
    the report gives the category [asimddp] a count of 1 and every other
    category of the registry a count of 0. *)
Theorem sdot_line_counts bn info sz n p :
  In (n, p) INSPECT_ARRAY ->
  odict_get (n ++ "_instructions") (inspect bn info sz "  401000: sdot v0.4s, v1.16b, v2.16b")
  = Some (VInt (if String.eqb n "asimddp" then 1 else 0)).
Proof.
  intro Hin.
  destruct (inspect_category bn info sz "  401000: sdot v0.4s, v1.16b, v2.16b" n p Hin) as [G _].
  rewrite G. do 2 f_equal.
  assert (Hall : forallb (fun e => Nat.eqb (count_instructions "  401000: sdot v0.4s, v1.16b, v2.16b" (snd e))
                                     (if String.eqb (fst e) "asimddp" then 1 else 0)) INSPECT_ARRAY = true)
    by (vm_compute; reflexivity).
  rewrite forallb_forall in Hall. specialize (Hall _ Hin). cbn [fst snd] in Hall.
  apply Nat.eqb_eq. exact Hall.
Qed.

Lemma sdot_line_counts_witness :
  odict_get ("asimddp" ++ "_instructions")
    (inspect "a.out" sample_info 0%Q "  401000: sdot v0.4s, v1.16b, v2.16b")
  = Some (VInt (if String.eqb "asimddp" "asimddp" then 1 else 0)).
Proof.
  apply (sdot_line_counts "a.out" sample_info 0%Q "asimddp" "\s(sdot|udot)"). in_registry.
Defined.

(** C8. If no line of the stream starts with whitespace, lowercase
    hexadecimal digits and a colon (for instance the empty stream), the
    report's total is 0 and every category has count 0 and percentage
    exactly 0. *)
Theorem no_instruction_lines_zero_report bn info sz d :
  (forall line, In line (split_nl (list_ascii_of_string d)) ->
     ~ exists pre hs rest, line = pre ++ hs ++ (":"%char :: rest) /\
         pre <> [] /\ forallb is_space pre = true /\ hs <> [] /\ forallb is_hex hs = true) ->
  odict_get "total_instructions" (inspect bn info sz d) = Some (VInt 0) /\
  (forall n p, In (n, p) INSPECT_ARRAY ->
     odict_get (n ++ "_instructions") (inspect bn info sz d) = Some (VInt 0) /\
     odict_get (n ++ "_instructions_percentage") (inspect bn info sz d) = Some (VFloat 0%Q)).
Proof.
  intro H.
  assert (Z : forall p, count_instructions d p = 0).
  { intro p. apply no_insn_count_zero. intros line Hl.
    destruct (re_search INSN_LINE line) eqn:E; [|reflexivity].
    exfalso. exact (H line Hl (insn_line_shape line E)). }
  split.
  - rewrite inspect_total, Z. reflexivity.
  - intros n p Hin. destruct (inspect_category bn info sz d n p Hin) as [G1 G2].
    rewrite G1, G2, !Z. split; reflexivity.
Qed.

Lemma no_instruction_lines_zero_report_witness :
  odict_get "total_instructions" (inspect "a.out" sample_info 0%Q "") = Some (VInt 0) /\
  (forall n p, In (n, p) INSPECT_ARRAY ->
     odict_get (n ++ "_instructions") (inspect "a.out" sample_info 0%Q "") = Some (VInt 0) /\
     odict_get (n ++ "_instructions_percentage") (inspect "a.out" sample_info 0%Q "") = Some (VFloat 0%Q)).
Proof.
  apply (no_instruction_lines_zero_report "a.out" sample_info 0%Q "").
  intros line Hl (pre & hs & rest & E & Hp & _).
  destruct Hl as [<- | []]. destruct pre; [contradiction | discriminate].
Defined.

(** C9. The rules of [sha3] and [svesha3] are the same pattern, so the two
    counts agree on every stream; the [sha512] rule only matches lines the
    [sha2] rule matches, so its count is at most [sha2]'s. The counts do
    not partition the stream: on a one-instruction stream both [sha512]
    and [sha2] count that instruction. *)
Theorem overlapping_categories d :
  registry_pattern "sha3" = registry_pattern "svesha3" /\
  count_instructions d (registry_pattern "sha3") = count_instructions d (registry_pattern "svesha3") /\
  (forall line, implb (re_search (registry_pattern "sha512") line)
                      (re_search (registry_pattern "sha2") line) = true) /\
  count_instructions d (registry_pattern "sha512") <= count_instructions d (registry_pattern "sha2") /\
  (count_instructions "  4000: sha512h q0, q1, v2.2d" "." = 1 /\
   count_instructions "  4000: sha512h q0, q1, v2.2d" (registry_pattern "sha512") = 1 /\
   count_instructions "  4000: sha512h q0, q1, v2.2d" (registry_pattern "sha2") = 1).
Proof.
  assert (E : registry_pattern "sha3" = registry_pattern "svesha3") by reflexivity.
  split; [exact E|split; [rewrite E; reflexivity|split; [|split]]].
  - intro line. destruct (re_search (registry_pattern "sha512") line) eqn:M; [|reflexivity].
    rewrite (sha512_in_sha2 line M). reflexivity.
  - rewrite !count_filter. apply filter_length_mono.
    intros l _ Hl. apply andb_true_iff in Hl as [H1 H2].
    rewrite H1, (sha512_in_sha2 l H2). reflexivity.
  - vm_compute. repeat split.
Qed.

(** C10. Every category's count is at most the total count, and every
    reported percentage lies in [[0, 100]]. *)
Theorem category_count_bounded bn info sz d n p :
  In (n, p) INSPECT_ARRAY ->
  exists c t q,
    odict_get (n ++ "_instructions") (inspect bn info sz d) = Some (VInt c) /\
    odict_get "total_instructions" (inspect bn info sz d) = Some (VInt t) /\
    odict_get (n ++ "_instructions_percentage") (inspect bn info sz d) = Some (VFloat q) /\
    c <= t /\ (0 <= q <= 100)%Q.
Proof.
  intro Hin. destruct (inspect_category bn info sz d n p Hin) as [G1 G2].
  exists (count_instructions d p), (count_instructions d "."),
    (percentage (count_instructions d p) (count_instructions d ".")).
  split; [exact G1|split; [apply inspect_total|split; [exact G2|split]]].
  - apply count_le_total.
  - apply percentage_bounds, count_le_total.
Qed.

Lemma category_count_bounded_witness :
  exists c t q,
    odict_get ("sha2" ++ "_instructions") (inspect "a.out" sample_info 0%Q "  4000: sha512h q0, q1, v2.2d") = Some (VInt c) /\
    odict_get "total_instructions" (inspect "a.out" sample_info 0%Q "  4000: sha512h q0, q1, v2.2d") = Some (VInt t) /\
    odict_get ("sha2" ++ "_instructions_percentage") (inspect "a.out" sample_info 0%Q "  4000: sha512h q0, q1, v2.2d") = Some (VFloat q) /\
    c <= t /\ (0 <= q <= 100)%Q.
Proof.
  apply (category_count_bounded "a.out" sample_info 0%Q "  4000: sha512h q0, q1, v2.2d" "sha2"
           "\s(sha256[hsu]|sha512[hsu])").
  in_registry.
Defined.

End ClassifierClaims.

(* ------------------------------------------------------------------ *)
(** ** Facts about the auxv decoder *)

Module AuxvFacts.
Import Auxv.

Lemma length_encode_word w x : length (encode_word w x) = w.
Proof. revert x; induction w; intro x; simpl; auto. Qed.

Lemma le_value_encode_word w x :
  (0 <= x < 2 ^ Z.of_nat (8 * w))%Z -> le_value (encode_word w x) = x.
Proof.
  revert x; induction w as [|w IH]; intros x Hx; cbn [encode_word le_value].
  - simpl in Hx. lia.
  - rewrite IH.
    + pose proof (Z.div_mod x 256 ltac:(lia)). lia.
    + replace (Z.of_nat (8 * S w)) with (8 + Z.of_nat (8 * w))%Z in Hx by lia.
      rewrite Z.pow_add_r in Hx by lia. change (2 ^ 8)%Z with 256%Z in Hx.
      split; [apply Z.div_pos; lia|]. apply Z.div_lt_upper_bound; lia.
Qed.

Lemma scan_S le wb st data f i :
  scan le wb st data (S f) i =
  (let chunk := firstn st (skipn i data) in
   if length chunk <? st then []
   else let '(a_type, a_val) := unpack le wb chunk in
        if (a_type =? 0)%Z then [] else (a_type, a_val) :: scan le wb st data f (i + st)).
Proof. reflexivity. Qed.

Lemma scan_shift le wb st data f i :
  scan le wb st data f i = scan le wb st (skipn i data) f 0.
Proof.
  revert data i; induction f as [|f IH]; intros data i; [reflexivity|].
  cbn [scan]. rewrite skipn_O.
  destruct (length (firstn st (skipn i data)) <? st); [reflexivity|].
  destruct (unpack le wb (firstn st (skipn i data))) as [t v].
  destruct (t =? 0)%Z; [reflexivity|]. f_equal.
  rewrite IH, (IH (skipn i data)), skipn_skipn. do 2 f_equal. lia.
Qed.

Lemma firstn_words w a b rest :
  firstn (w + w) (encode_word w a ++ encode_word w b ++ rest) = encode_word w a ++ encode_word w b.
Proof.
  rewrite app_assoc, firstn_app, length_app, !length_encode_word, Nat.sub_diag, firstn_O, app_nil_r.
  apply firstn_all2. rewrite length_app, !length_encode_word. lia.
Qed.

Lemma skipn_words w a b rest :
  skipn (w + w) (encode_word w a ++ encode_word w b ++ rest) = rest.
Proof.
  rewrite app_assoc, skipn_app, length_app, !length_encode_word, Nat.sub_diag, skipn_O.
  rewrite skipn_all2; [reflexivity|]. rewrite length_app, !length_encode_word. lia.
Qed.

Lemma unpack_words w a b :
  unpack true w (encode_word w a ++ encode_word w b) =
  (le_value (encode_word w a), le_value (encode_word w b)).
Proof.
  unfold unpack, unpack_word. rewrite firstn_app, skipn_app, length_encode_word, Nat.sub_diag,
    firstn_O, skipn_O, app_nil_r, firstn_all2, skipn_all2 by (rewrite length_encode_word; lia).
  reflexivity.
Qed.

Lemma scan_round_trip wb pairs v0 junk f :
  Forall (fun e => fst e <> 0%Z /\ (0 <= fst e < 2 ^ Z.of_nat (8 * wb))%Z /\
                   (0 <= snd e < 2 ^ Z.of_nat (8 * wb))%Z) pairs ->
  (0 <= v0 < 2 ^ Z.of_nat (8 * wb))%Z ->
  length pairs < f ->
  scan true wb (wb + wb) (encode_pairs wb pairs ++ encode_word wb 0 ++ encode_word wb v0 ++ junk) f 0
  = pairs.
Proof.
  intros Hp Hv. revert f. induction Hp as [|[t v] pairs [Ht [Bt Bv]] Hp IH]; intros f Hf;
    (destruct f as [|f]; [simpl in Hf; lia|]); cbn [scan encode_pairs flat_map fst snd]; rewrite skipn_O.
  - rewrite app_nil_l, firstn_words, length_app, !length_encode_word, Nat.ltb_irrefl, unpack_words.
    rewrite (le_value_encode_word wb 0) by (split; [lia|apply Z.pow_pos_nonneg; lia]).
    reflexivity.
  - fold (encode_pairs wb pairs). cbn [fst snd] in Ht, Bt, Bv. rewrite <- !app_assoc, firstn_words, length_app, !length_encode_word,
      Nat.ltb_irrefl, unpack_words, !le_value_encode_word by assumption.
    apply Z.eqb_neq in Ht. rewrite Ht. f_equal.
    rewrite scan_shift, Nat.add_0_l, skipn_words. apply IH. simpl in Hf. lia.
Qed.

Lemma scan_enough le wb st f d g :
  0 < st -> length d <= f * st -> f <= g -> scan le wb st d g 0 = scan le wb st d f 0.
Proof.
  intro Hs. revert d g; induction f as [|f IH]; intros d g Hd Hg.
  - destruct d; [|simpl in Hd; lia]. destruct g as [|g]; [reflexivity|].
    cbn [scan]. destruct st; [lia|]. reflexivity.
  - destruct g as [|g]; [lia|]. cbn [scan].
    destruct (length (firstn st (skipn 0 d)) <? st); [reflexivity|].
    destruct (unpack le wb (firstn st (skipn 0 d))) as [t v].
    destruct (t =? 0)%Z; [reflexivity|]. f_equal.
    change (0 + st) with st.
    rewrite (scan_shift le wb st d g st), (scan_shift le wb st d f st). apply IH; [|lia].
    rewrite length_skipn. simpl in Hd. lia.
Qed.

Lemma scan_tail le wb st q full tail :
  0 < st -> length full = q * st -> length tail < st ->
  scan le wb st (full ++ tail) (S q) 0 = scan le wb st full q 0.
Proof.
  intro Hs. revert full; induction q as [|q IH]; intros full Hf Ht.
  - destruct full; [|simpl in Hf; discriminate]. cbn [scan app]. rewrite skipn_O.
    replace (length (firstn st tail) <? st) with true; [reflexivity|].
    symmetry. apply Nat.ltb_lt. rewrite length_firstn. lia.
  - rewrite (scan_S le wb st (full ++ tail) (S q) 0), (scan_S le wb st full q 0).
    cbv zeta. rewrite ?skipn_O, firstn_app.
    replace (st - length full) with 0 by lia. rewrite firstn_O, app_nil_r.
    destruct (length (firstn st full) <? st); [reflexivity|].
    destruct (unpack le wb (firstn st full)) as [t v].
    destruct (t =? 0)%Z; [reflexivity|]. f_equal.
    change (0 + st) with st.
    rewrite (scan_shift le wb st (full ++ tail) (S q) st), (scan_shift le wb st full q st), skipn_app.
    replace (st - length full) with 0 by lia. rewrite skipn_O.
    apply IH; [rewrite length_skipn; lia | exact Ht].
Qed.

Lemma range_len_lower n st k : 0 < st -> k * st <= n + st - 1 -> k <= range_len n st.
Proof. intros Hs H. unfold range_len. apply Nat.div_le_lower_bound; lia. Qed.

Lemma parse_auxv_ws native le arch data (w : nat) :
  word_size native arch = Z.of_nat w -> w = 4 \/ w = 8 ->
  parse_auxv native le arch data = Ok (scan le w (w + w) data (range_len (length data) (w + w)) 0).
Proof.
  intros E [-> | ->]; unfold parse_auxv; rewrite E; reflexivity.
Qed.

Lemma shiftr_land_one bits b :
  (0 <= b)%Z -> negb (Z.land (Z.shiftr bits b) 1 =? 0)%Z = Z.testbit bits b.
Proof.
  intro Hb. change 1%Z with (Z.ones 1) at 1. rewrite Z.land_ones by lia.
  change (2 ^ 1)%Z with 2%Z. rewrite Zmod_odd, <- Z.bit0_odd, Z.shiftr_spec by lia.
  rewrite Z.add_0_l. destruct (Z.testbit bits b); reflexivity.
Qed.

Lemma insert_sorted_hd s x l :
  HdRel (fun a b => String.leb a b = true) x l -> String.leb x s = true ->
  HdRel (fun a b => String.leb a b = true) x (insert_sorted s l).
Proof.
  intros H Hs. destruct l as [|y l]; cbn [insert_sorted]; [constructor; exact Hs|].
  destruct (String.leb s y); constructor; [exact Hs | inversion H; assumption].
Qed.

Lemma insert_sorted_ok s l :
  Sorted (fun a b => String.leb a b = true) l ->
  Sorted (fun a b => String.leb a b = true) (insert_sorted s l).
Proof.
  induction 1 as [|y l Sl IH Hd]; cbn [insert_sorted]; [constructor; constructor|].
  destruct (String.leb s y) eqn:E.
  - constructor; [constructor; assumption | constructor; exact E].
  - constructor; [exact IH|]. apply insert_sorted_hd; [exact Hd|].
    destruct (String.leb_total s y) as [T|T]; [congruence | exact T].
Qed.

Lemma insert_sorted_perm s l : Permutation (insert_sorted s l) (s :: l).
Proof.
  induction l as [|y l IH]; cbn [insert_sorted]; [reflexivity|].
  destruct (String.leb s y); [reflexivity|].
  transitivity (y :: s :: l); [constructor; exact IH | constructor].
Qed.

(** [sorted] returns its argument sorted by [String.leb]. *)
Lemma sorted_spec l :
  Permutation (sorted l) l /\ Sorted (fun a b => String.leb a b = true) (sorted l).
Proof.
  induction l as [|x l [P S]]; cbn [sorted fold_right]; [split; constructor|].
  fold (sorted l). split.
  - rewrite insert_sorted_perm. constructor. exact P.
  - apply insert_sorted_ok. exact S.
Qed.

End AuxvFacts.

(* ------------------------------------------------------------------ *)
(** ** Claims about the auxv decoder and the HWCAP expander *)

Module AuxvClaims.
Import Auxv AuxvFacts.

(** C1 (counterexample). With the hint ["riscv64"] on a host whose
    [c_ulong] has 8 bytes, [parse_auxv] does not fail: it falls back to
    the native word size and decodes the buffer. *)
Lemma riscv64_hint_decodes :
  parse_auxv 8 true (Some "riscv64"%string)
    ([6; 0; 0; 0; 0; 0; 0; 0; 0; 16; 0; 0; 0; 0; 0; 0] ++ repeat 0%Z 16)%Z
  = Ok [(6, 4096)]%Z.
Proof. vm_compute. reflexivity. Qed.

(** C1 (amended). An architecture hint outside the supported list (or no
    hint) resolves to the native [c_ulong] size. The decode fails with
    [UnsupportedWordSize] exactly when that native size is neither 4 nor
    8; otherwise it succeeds. *)
Theorem unsupported_hint_uses_native_size native le arch data :
  (forall a, arch = Some a -> ~ In a SUPPORTED_ARCH_LIST) ->
  word_size native arch = native /\
  (native <> 4%Z -> native <> 8%Z -> parse_auxv native le arch data = Err (UnsupportedWordSize native)) /\
  (native = 4%Z \/ native = 8%Z -> exists es, parse_auxv native le arch data = Ok es).
Proof.
  intro H.
  assert (W : word_size native arch = native).
  { destruct arch as [a|]; [|reflexivity]. specialize (H a eq_refl). unfold word_size.
    destruct (String.eqb a "aarch64") eqn:E1; [apply String.eqb_eq in E1; subst; exfalso; apply H; simpl; tauto|].
    destruct (String.eqb a "x86_64") eqn:E2; [apply String.eqb_eq in E2; subst; exfalso; apply H; simpl; tauto|].
    destruct (String.eqb a "i386") eqn:E3; [apply String.eqb_eq in E3; subst; exfalso; apply H; simpl; tauto|].
    destruct (String.eqb a "i686") eqn:E4; [apply String.eqb_eq in E4; subst; exfalso; apply H; simpl; tauto|].
    cbn [orb existsb]. rewrite E3, E4. reflexivity. }
  split; [exact W|split].
  - intros N4 N8. unfold parse_auxv. rewrite W.
    apply Z.eqb_neq in N4, N8. rewrite N8, N4. reflexivity.
  - intros [-> | ->]; unfold parse_auxv; rewrite W; eexists; reflexivity.
Qed.

Lemma unsupported_hint_uses_native_size_witness :
  word_size 8 (Some "riscv64"%string) = 8%Z /\
  (8%Z <> 4%Z -> 8%Z <> 8%Z -> parse_auxv 8 true (Some "riscv64"%string) [] = Err (UnsupportedWordSize 8)) /\
  (8%Z = 4%Z \/ 8%Z = 8%Z -> exists es, parse_auxv 8 true (Some "riscv64"%string) [] = Ok es).
Proof.
  apply (unsupported_hint_uses_native_size 8 true (Some "riscv64"%string) []).
  intros a E. injection E as <-. simpl. intuition discriminate.
Defined.

(** C3. On a little-endian host, for word size 4 or 8: encoding [N]
    (tag, value) pairs with nonzero tags as consecutive little-endian
    words, then an [AT_NULL] pair (tag 0, any value), then any bytes,
    and decoding gives back exactly the [N] pairs in order. *)
Theorem auxv_round_trip native arch (w : nat) pairs v0 junk :
  word_size native arch = Z.of_nat w -> w = 4 \/ w = 8 ->
  Forall (fun e => fst e <> 0%Z /\ (0 <= fst e < 2 ^ Z.of_nat (8 * w))%Z /\
                   (0 <= snd e < 2 ^ Z.of_nat (8 * w))%Z) pairs ->
  (0 <= v0 < 2 ^ Z.of_nat (8 * w))%Z ->
  parse_auxv native true arch (encode_pairs w pairs ++ encode_word w 0 ++ encode_word w v0 ++ junk)
  = Ok pairs.
Proof.
  intros E Hw Hp Hv. rewrite (parse_auxv_ws native true arch _ w E Hw). f_equal.
  apply scan_round_trip; [exact Hp | exact Hv|].
  assert (L : length (encode_pairs w pairs) = length pairs * (w + w)).
  { clear Hp. induction pairs as [|e pairs IH]; [reflexivity|].
    cbn [encode_pairs flat_map]. fold (encode_pairs w pairs).
    rewrite !length_app, !length_encode_word, IH. simpl. lia. }
  enough (S (length pairs) <= range_len (length (encode_pairs w pairs ++ encode_word w 0 ++
            encode_word w v0 ++ junk)) (w + w)) by lia.
  apply range_len_lower; [lia|]. rewrite !length_app, !length_encode_word, L. lia.
Qed.

Lemma auxv_round_trip_witness :
  parse_auxv 8 true (Some "i386"%string)
    (encode_pairs 4 [(3, 4198464); (6, 4096)]%Z ++ encode_word 4 0 ++ encode_word 4 0 ++ [])
  = Ok [(3, 4198464); (6, 4096)]%Z.
Proof.
  apply (auxv_round_trip 8 (Some "i386"%string) 4 [(3, 4198464); (6, 4096)]%Z 0 []).
  - reflexivity.
  - left. reflexivity.
  - repeat constructor; vm_compute; (discriminate || reflexivity).
  - vm_compute. split; (discriminate || reflexivity).
Defined.

(** C4. For word size 4 or 8 (stride [2 * w] bytes): a buffer made of
    whole strides followed by fewer than one stride of trailing bytes
    decodes to the same entries as the buffer without those trailing
    bytes, and the decode succeeds. *)
Theorem truncated_tail_ignored native le arch (w : nat) full tail :
  word_size native arch = Z.of_nat w -> w = 4 \/ w = 8 ->
  length full mod (w + w) = 0 -> length tail < w + w ->
  parse_auxv native le arch (full ++ tail) = parse_auxv native le arch full /\
  exists es, parse_auxv native le arch (full ++ tail) = Ok es.
Proof.
  intros E Hw Hm Ht.
  rewrite !(parse_auxv_ws native le arch _ w E Hw).
  split; [|eexists; reflexivity]. f_equal.
  assert (Hs : 0 < w + w) by lia.
  set (st := w + w) in *.
  apply Nat.Div0.mod_divides in Hm as [q Hq].
  destruct tail as [|b tail'].
  - rewrite app_nil_r. reflexivity.
  - set (tail := b :: tail') in *.
    assert (Lf : length full = q * st) by lia.
    rewrite (scan_enough le w st (S q) (full ++ tail)); [| exact Hs | rewrite length_app; lia |].
    2: { apply range_len_lower; [exact Hs|]. rewrite length_app. simpl in Ht |- *. subst tail. simpl. lia. }
    rewrite (scan_enough le w st q full); [| exact Hs | lia |].
    2: { apply range_len_lower; [exact Hs|]. lia. }
    apply scan_tail; assumption.
Qed.

Lemma truncated_tail_ignored_witness :
  parse_auxv 8 true (Some "i386"%string) ([16; 0; 0; 0; 0; 16; 0; 0] ++ [17; 0; 0; 0; 255])%Z
  = parse_auxv 8 true (Some "i386"%string) [16; 0; 0; 0; 0; 16; 0; 0]%Z /\
  exists es, parse_auxv 8 true (Some "i386"%string) ([16; 0; 0; 0; 0; 16; 0; 0] ++ [17; 0; 0; 0; 255])%Z = Ok es.
Proof.
  apply (truncated_tail_ignored 8 true (Some "i386"%string) 4); try reflexivity.
  - left. reflexivity.
  - simpl. lia.
Defined.

(** C6 (counterexample). For the bitmask with bits 1, 3 and 22 set,
    [bits_to_names] on the AArch64 table returns the names in bit order,
    which is not sorted: sorting happens later, in [decode_hwcap]. *)
Lemma bits_to_names_not_sorted :
  bits_to_names 4194314 AARCH64_HWCAP = ["ASIMD"; "AES"; "SVE"]%string /\
  bits_to_names 4194314 AARCH64_HWCAP <> sorted (bits_to_names 4194314 AARCH64_HWCAP).
Proof. vm_compute. split; [reflexivity | discriminate]. Qed.

(** C6 (amended). For a table with nonnegative bit positions,
    [bits_to_names] returns, in table order, the names whose bit is set in
    the mask, unsorted. [decode_hwcap] sorts them lexically before joining:
    for every pair of masks, each AArch64 line (and the x86 [HWCAP] line) is
    the join of a lexically sorted permutation of [bits_to_names] on the
    mask, and the line is absent when no name is found. For the AArch64 mask
    with bits 1, 3 and 22 set the decoded line lists AES, ASIMD, SVE. *)
Theorem bits_to_names_table_order bits table :
  Forall (fun e => (0 <= fst e)%Z) table ->
  bits_to_names bits table = map snd (filter (fun e => Z.testbit bits (fst e)) table) /\
  (forall h h2, exists l1 l2,
     decode_hwcap "aarch64" h h2 =
       (match bits_to_names h AARCH64_HWCAP with
        | [] => [] | _ => [("HWCAP:  " ++ String.concat ", " l1)%string] end) ++
       (match bits_to_names h2 AARCH64_HWCAP2 with
        | [] => [] | _ => [("HWCAP2: " ++ String.concat ", " l2)%string] end) /\
     Permutation l1 (bits_to_names h AARCH64_HWCAP) /\
     Sorted (fun a b => String.leb a b = true) l1 /\
     Permutation l2 (bits_to_names h2 AARCH64_HWCAP2) /\
     Sorted (fun a b => String.leb a b = true) l2) /\
  (forall arch h h2, In arch ["x86_64"; "i386"; "i686"]%string -> exists l,
     decode_hwcap arch h h2 =
       (match bits_to_names h X86_HWCAP with
        | [] => [] | _ => [("HWCAP:  " ++ String.concat ", " l)%string] end) ++
       (if (h2 =? 0)%Z then [] else [("HWCAP2: 0x" ++ hex h2 ++ " (rarely used on x86)")%string]) /\
     Permutation l (bits_to_names h X86_HWCAP) /\
     Sorted (fun a b => String.leb a b = true) l) /\
  decode_hwcap "aarch64" (Z.lor (Z.lor (2 ^ 1) (2 ^ 3)) (2 ^ 22)) 0 = ["HWCAP:  AES, ASIMD, SVE"]%string.
Proof.
  intro H. split; [|split; [|split]].
  - unfold bits_to_names. f_equal. induction H as [|e table He H IH]; [reflexivity|].
    cbn [filter]. rewrite shiftr_land_one by exact He. rewrite IH. reflexivity.
  - intros h h2.
    destruct (sorted_spec (bits_to_names h AARCH64_HWCAP)) as [P1 S1].
    destruct (sorted_spec (bits_to_names h2 AARCH64_HWCAP2)) as [P2 S2].
    exists (sorted (bits_to_names h AARCH64_HWCAP)), (sorted (bits_to_names h2 AARCH64_HWCAP2)).
    split; [unfold decode_hwcap, bits_to_names; reflexivity | tauto].
  - intros arch h h2 Ha.
    destruct (sorted_spec (bits_to_names h X86_HWCAP)) as [P S].
    exists (sorted (bits_to_names h X86_HWCAP)). split; [|tauto].
    unfold decode_hwcap, bits_to_names.
    destruct Ha as [<-|[<-|[<-|[]]]]; reflexivity.
  - vm_compute. reflexivity.
Qed.

Lemma bits_to_names_table_order_witness :
  bits_to_names 4194314 AARCH64_HWCAP =
    map snd (filter (fun e => Z.testbit 4194314 (fst e)) AARCH64_HWCAP) /\
  (forall h h2, exists l1 l2,
     decode_hwcap "aarch64" h h2 =
       (match bits_to_names h AARCH64_HWCAP with
        | [] => [] | _ => [("HWCAP:  " ++ String.concat ", " l1)%string] end) ++
       (match bits_to_names h2 AARCH64_HWCAP2 with
        | [] => [] | _ => [("HWCAP2: " ++ String.concat ", " l2)%string] end) /\
     Permutation l1 (bits_to_names h AARCH64_HWCAP) /\
     Sorted (fun a b => String.leb a b = true) l1 /\
     Permutation l2 (bits_to_names h2 AARCH64_HWCAP2) /\
     Sorted (fun a b => String.leb a b = true) l2) /\
  (forall arch h h2, In arch ["x86_64"; "i386"; "i686"]%string -> exists l,
     decode_hwcap arch h h2 =
       (match bits_to_names h X86_HWCAP with
        | [] => [] | _ => [("HWCAP:  " ++ String.concat ", " l)%string] end) ++
       (if (h2 =? 0)%Z then [] else [("HWCAP2: 0x" ++ hex h2 ++ " (rarely used on x86)")%string]) /\
     Permutation l (bits_to_names h X86_HWCAP) /\
     Sorted (fun a b => String.leb a b = true) l) /\
  decode_hwcap "aarch64" (Z.lor (Z.lor (2 ^ 1) (2 ^ 3)) (2 ^ 22)) 0 = ["HWCAP:  AES, ASIMD, SVE"]%string.
Proof.
  apply (bits_to_names_table_order 4194314 AARCH64_HWCAP).
  repeat constructor; vm_compute; discriminate.
Defined.

End AuxvClaims.

(* ------------------------------------------------------------------ *)
(** ** Helper facts on strings, lines and ordered dicts *)

Module InspectExtraFacts.
Import Regex RegexFacts Inspect InspectFacts.

Lemma list_ascii_of_string_app (a b : string) :
  list_ascii_of_string (a ++ b) = list_ascii_of_string a ++ list_ascii_of_string b.
Proof. induction a as [|c a IH]; simpl; [reflexivity|]. rewrite IH. reflexivity. Qed.

Lemma split_nl_not_nil s : split_nl s <> [].
Proof.
  induction s as [|c s IH]; simpl; [discriminate|].
  destruct (Ascii.eqb c newline); [discriminate|]. destruct (split_nl s); [contradiction|discriminate].
Qed.

Lemma split_nl_app l1 l2 : split_nl (l1 ++ newline :: l2) = split_nl l1 ++ split_nl l2.
Proof.
  induction l1 as [|c l1 IH]; simpl.
  - reflexivity.
  - rewrite IH. destruct (Ascii.eqb c newline); [reflexivity|].
    destruct (split_nl l1) eqn:E; [exfalso; exact (split_nl_not_nil l1 E)|]. reflexivity.
Qed.

Lemma string_of_list_ascii_app (a b : list ascii) :
  string_of_list_ascii (a ++ b) = (string_of_list_ascii a ++ string_of_list_ascii b)%string.
Proof. induction a as [|c a IH]; simpl; [reflexivity|]. rewrite IH. reflexivity. Qed.

Lemma is_prefix_app p q : is_prefix p (p ++ q) = true.
Proof. induction p as [|c p IH]; simpl; [reflexivity|]. rewrite Ascii.eqb_refl, IH. reflexivity. Qed.

Lemma is_prefix_spec p s : is_prefix p s = true <-> exists q, s = p ++ q.
Proof.
  revert s. induction p as [|a p IH]; intro s; simpl.
  - split; [intros _; exists s; reflexivity | reflexivity].
  - destruct s as [|b s].
    + split; [discriminate | intros [q E]; discriminate].
    + rewrite andb_true_iff, IH, Ascii.eqb_eq. split.
      * intros [-> [q ->]]. exists q. reflexivity.
      * intros [q E]. injection E as -> E. split; [reflexivity|]. exists q. exact E.
Qed.

Lemma contains_spec n s : contains n s = true <-> exists a b, s = a ++ n ++ b.
Proof.
  induction s as [|c s IH]; cbn [contains]; rewrite orb_true_iff, is_prefix_spec.
  - split.
    + intros [[q E] | F]; [|discriminate]. exists [], q. exact E.
    + intros (a & b & E). left. destruct a; [exists b; exact E|discriminate].
  - split.
    + intros [[q E] | F].
      * exists [], q. exact E.
      * apply IH in F as (a & b & ->). exists (c :: a), b. reflexivity.
    + intros ([|a0 a] & b & E).
      * left. exists b. exact E.
      * right. injection E as -> E. apply IH. exists a, b. exact E.
Qed.

Lemma lstrip_keep a c r :
  is_space c = false -> exists a', lstrip (a ++ c :: r) = a' ++ c :: r.
Proof.
  intro Hc. induction a as [|x a IH]; simpl.
  - rewrite Hc. exists []. reflexivity.
  - destruct (is_space x); [exact IH|]. exists (x :: a). reflexivity.
Qed.

(** [strip] keeps a substring that starts and ends with a non-space. *)
Lemma strip_contains n s :
  n <> [] -> is_space (hd "a"%char n) = false -> is_space (hd "a"%char (rev n)) = false ->
  contains n s = true -> contains n (strip s) = true.
Proof.
  intros Hn H1 H2 Hc. apply contains_spec in Hc as (a & b & ->).
  destruct n as [|c n]; [contradiction|]. simpl in H1.
  destruct (lstrip_keep a c (n ++ b) H1) as [a' E]. unfold strip. change ((c :: n) ++ b) with (c :: n ++ b). rewrite E.
  change (a' ++ c :: n ++ b) with (a' ++ (c :: n) ++ b).
  rewrite !rev_app_distr.
  destruct (rev (c :: n)) as [|d m] eqn:R;
    [exfalso; apply (f_equal (@length ascii)) in R; rewrite length_rev in R; discriminate|]. simpl in H2.
  destruct (lstrip_keep (rev b) d (m ++ rev a') H2) as [b' E2].
  rewrite <- app_assoc. cbn [app]. rewrite E2.
  apply contains_spec. exists a', (rev b').
  change (d :: m ++ rev a') with ((d :: m) ++ rev a').
  rewrite <- R, !rev_app_distr, !rev_involutive, <- app_assoc. reflexivity.
Qed.

Lemma samples_loop_spec p limit lines acc :
  length acc < Z.to_nat (Z.max 1 limit) ->
  samples_loop p limit lines acc =
  acc ++ map (fun l => string_of_list_ascii (strip l))
             (firstn (Z.to_nat (Z.max 1 limit) - length acc)
                     (filter (fun l => re_search INSN_LINE l && re_search p l) lines)).
Proof.
  revert acc. induction lines as [|x lines IH]; intros acc H.
  - cbn [samples_loop filter]. rewrite firstn_nil, app_nil_r. reflexivity.
  - cbn [samples_loop filter].
    destruct (re_search INSN_LINE x) eqn:I; [destruct (re_search p x) eqn:P|]; cbn [andb];
      [| apply IH; exact H | apply IH; exact H].
    destruct (limit <=? Z.of_nat (length (acc ++ [string_of_list_ascii (strip x)])))%Z eqn:Sl.
    + apply Z.leb_le in Sl. rewrite length_app in Sl. cbn [length] in Sl.
      replace (Z.to_nat (Z.max 1 limit) - length acc) with 1 by lia. reflexivity.
    + apply Z.leb_gt in Sl. rewrite length_app in Sl. cbn [length] in Sl.
      rewrite IH by (rewrite length_app; cbn [length]; lia).
      replace (Z.to_nat (Z.max 1 limit) - length acc)
        with (S (Z.to_nat (Z.max 1 limit) - length (acc ++ [string_of_list_ascii (strip x)])))
        by (rewrite length_app; cbn [length]; lia).
      rewrite <- app_assoc. reflexivity.
Qed.

Lemma split_on_app sep l1 l2 : split_on sep (l1 ++ sep :: l2) = split_on sep l1 ++ split_on sep l2.
Proof.
  assert (NN : forall s, split_on sep s <> []).
  { induction s as [|c s IH]; simpl; [discriminate|].
    destruct (Ascii.eqb c sep); [discriminate|]. destruct (split_on sep s); [contradiction|discriminate]. }
  induction l1 as [|c l1 IH]; simpl.
  - rewrite Ascii.eqb_refl. reflexivity.
  - rewrite IH. destruct (Ascii.eqb c sep); [reflexivity|].
    destruct (split_on sep l1) eqn:E; [exfalso; exact (NN l1 E)|]. reflexivity.
Qed.

Lemma split_on_nosep sep l : existsb (Ascii.eqb sep) l = false -> split_on sep l = [l].
Proof.
  induction l as [|c l IH]; simpl; [reflexivity|]. intro H.
  apply orb_false_iff in H as [H1 H2]. rewrite Ascii.eqb_sym, H1, IH by exact H2. reflexivity.
Qed.

Lemma split_on_concat l :
  l <> [] -> Forall (fun x => existsb (Ascii.eqb ";") (list_ascii_of_string x) = false) l ->
  split_on ";" (list_ascii_of_string (String.concat ";" l)) = map list_ascii_of_string l.
Proof.
  intros Hl H. induction H as [|x l Hx H IH]; [contradiction|].
  destruct l as [|y l].
  - simpl. apply split_on_nosep. exact Hx.
  - change (String.concat ";" (x :: y :: l)) with (x ++ ";" ++ String.concat ";" (y :: l))%string.
    rewrite !list_ascii_of_string_app. cbn [list_ascii_of_string app].
    rewrite split_on_app, split_on_nosep, IH by (discriminate || exact Hx). reflexivity.
Qed.

Lemma map_string_of_list (l : list string) :
  map string_of_list_ascii (map list_ascii_of_string l) = l.
Proof.
  induction l as [|x l IH]; simpl; [reflexivity|]. rewrite string_of_list_ascii_of_string, IH. reflexivity.
Qed.

Lemma registry_names_plain :
  Forall (fun x => existsb (Ascii.eqb ";") (list_ascii_of_string x) = false /\ x <> "none"%string)
    (map fst INSPECT_ARRAY).
Proof.
  assert (H : forallb (fun x => negb (existsb (Ascii.eqb ";") (list_ascii_of_string x))
                                && negb (String.eqb x "none")) (map fst INSPECT_ARRAY) = true)
    by (vm_compute; reflexivity).
  apply Forall_forall. rewrite forallb_forall in H. intros x Hx. specialize (H x Hx).
  apply andb_true_iff in H as [H1 H2]. apply negb_true_iff in H1, H2.
  split; [exact H1 | apply String.eqb_neq; exact H2].
Qed.

Lemma parse_join l :
  (forall x, In x l -> In x (map fst INSPECT_ARRAY)) -> parse_extensions (join_or_none l) = l.
Proof.
  intro Hsub. destruct l as [|x l']; [reflexivity|].
  set (l := x :: l').
  assert (Hf : Forall (fun x => existsb (Ascii.eqb ";") (list_ascii_of_string x) = false /\ x <> "none"%string) l).
  { apply Forall_forall. intros y Hy. pose proof registry_names_plain as R.
    rewrite Forall_forall in R. apply R, Hsub, Hy. }
  assert (Hs : split_on ";" (list_ascii_of_string (String.concat ";" l)) = map list_ascii_of_string l).
  { apply split_on_concat; [discriminate|]. eapply Forall_impl; [|exact Hf]. intros y [Y _]. exact Y. }
  unfold parse_extensions. change (join_or_none l) with (String.concat ";" l).
  destruct (String.eqb (String.concat ";" l) "none") eqn:E.
  - exfalso. apply String.eqb_eq in E. rewrite E in Hs. cbn in Hs.
    destruct l' as [|y l'']; [|discriminate].
    injection Hs as Hx. apply (f_equal string_of_list_ascii) in Hx.
    rewrite string_of_list_ascii_of_string in Hx. subst l.
    inversion Hf as [|? ? [_ N] _]. apply N. rewrite <- Hx. reflexivity.
  - rewrite Hs. apply map_string_of_list.
Qed.

Lemma filter_names_sub (f : string * string -> bool) x :
  In x (map fst (filter f INSPECT_ARRAY)) -> In x (map fst INSPECT_ARRAY).
Proof.
  rewrite !in_map_iff. intros (e & E & H). apply filter_In in H as [H _]. exists e. split; assumption.
Qed.

Lemma ends_with_app n s : ends_with s (n ++ s) = true.
Proof. unfold ends_with. rewrite list_ascii_of_string_app, rev_app_distr. apply is_prefix_app. Qed.

Lemma shown_ext_entries lvl d t reg :
  filter (fun kv => shown lvl (fst kv)) (ext_entries d t reg) =
  if (lvl <? 1)%Z then [] else ext_entries d t reg.
Proof.
  unfold ext_entries. induction reg as [|e reg IH].
  - destruct (lvl <? 1)%Z; reflexivity.
  - cbn [flat_map app filter fst]. rewrite IH. unfold shown.
    rewrite (ends_with_app (fst e) "_instructions"), (ends_with_app (fst e) "_instructions_percentage").
    rewrite orb_true_l, orb_true_r. destruct (lvl <? 1)%Z; reflexivity.
Qed.

Lemma find_split {A} (f : A -> bool) l x :
  find f l = Some x ->
  exists pre post, l = pre ++ x :: post /\ Forall (fun y => f y = false) pre /\ f x = true.
Proof.
  induction l as [|y l IH]; cbn [find]; [discriminate|].
  destruct (f y) eqn:E.
  - intro H. injection H as <-. exists [], l. split; [reflexivity | split; [constructor | exact E]].
  - intro H. destruct (IH H) as (pre & post & -> & P & C).
    exists (y :: pre), post. split; [reflexivity | split; [constructor; assumption | exact C]].
Qed.

End InspectExtraFacts.

(* ------------------------------------------------------------------ *)
(** ** Further properties of the inspector *)

Module InspectExtras.
Import Regex RegexFacts Inspect InspectFacts ClassifierFacts InspectExtraFacts.

(** Counting over two disassembly texts joined by a newline adds the
    counts of each. *)
Theorem count_instructions_concat d1 d2 p :
  count_instructions (d1 ++ String newline d2) p = count_instructions d1 p + count_instructions d2 p.
Proof.
  rewrite !count_filter. unfold lines_of. rewrite list_ascii_of_string_app.
  cbn [list_ascii_of_string]. rewrite split_nl_app, filter_app, length_app. reflexivity.
Qed.

(** The report's [total_instructions] is the number of lines that start
    with whitespace, lowercase hex digits and a colon. *)
Theorem total_counts_instruction_lines bn info sz d :
  odict_get "total_instructions" (inspect bn info sz d) =
  Some (VInt (length (filter (re_search INSN_LINE) (split_nl (list_ascii_of_string d))))).
Proof.
  rewrite inspect_total, count_filter. unfold lines_of. do 3 f_equal.
  apply filter_ext_in. intros l Hl. destruct (re_search INSN_LINE l) eqn:E; [|reflexivity].
  cbn [andb]. exact (insn_line_counted d l Hl E).
Qed.

(** [find_sample_instructions] returns, stripped and in order, the first
    [max(1, limit)] instruction lines the pattern matches: a limit of 0 or
    less still returns one sample. Their number is the smaller of
    [max(1, limit)] and the pattern's count. *)
Theorem find_sample_instructions_spec d p limit :
  find_sample_instructions d p limit =
  map (fun l => string_of_list_ascii (strip l))
      (firstn (Z.to_nat (Z.max 1 limit))
              (filter (fun l => re_search INSN_LINE l && re_search p l)
                      (split_nl (list_ascii_of_string d)))) /\
  length (find_sample_instructions d p limit) =
  Nat.min (Z.to_nat (Z.max 1 limit)) (count_instructions d p).
Proof.
  assert (E : find_sample_instructions d p limit =
    map (fun l => string_of_list_ascii (strip l))
      (firstn (Z.to_nat (Z.max 1 limit))
              (filter (fun l => re_search INSN_LINE l && re_search p l)
                      (split_nl (list_ascii_of_string d))))).
  { unfold find_sample_instructions. rewrite samples_loop_spec by (cbn [length]; lia).
    cbn [length app]. rewrite Nat.sub_0_r. reflexivity. }
  split; [exact E|]. rewrite E, length_map, length_firstn, count_filter. reflexivity.
Qed.

(** Reading back the report's [detected_extensions] and
    [undetected_extensions] fields (["none"] for the empty list, else split
    on [;]) gives exactly the categories with a positive count, and those
    with count 0, in registry order. *)
Theorem extension_fields_read_back bn info sz d :
  match odict_get "detected_extensions" (inspect bn info sz d) with
  | Some (VStr s) => Some (parse_extensions s) | _ => None end =
  Some (map fst (filter (fun e => 0 <? count_instructions d (snd e)) INSPECT_ARRAY)) /\
  match odict_get "undetected_extensions" (inspect bn info sz d) with
  | Some (VStr s) => Some (parse_extensions s) | _ => None end =
  Some (map fst (filter (fun e => negb (0 <? count_instructions d (snd e))) INSPECT_ARRAY)).
Proof.
  rewrite inspect_detected, inspect_undetected. unfold detected_of, undetected_of.
  split; f_equal; apply parse_join; apply filter_names_sub.
Qed.

(** [main] prints, below debug level 1 (with [--quiet], or without any
    [-d]), only the 14 report keys other than [total_instructions] and
    the per-category keys: [total_instructions] ends in [_instructions]
    and is hidden too. From level 1 on it prints every key. *)
Theorem printed_keys_by_level bn info sz d quiet debug :
  printed_keys (debug_level_of quiet debug) (inspect bn info sz d) =
  if quiet || (debug <? 1)%Z then
    ["binary_name"; "detected_extensions"; "undetected_extensions"; "binary_format";
     "arch"; "elf_version"; "dynamically_linked"; "interpreter"; "android_api";
     "builder"; "build_id_sha1"; "debug_info"; "stripped"; "binary_size_mb"]%string
  else map fst (inspect bn info sz d).
Proof.
  replace (quiet || (debug <? 1)%Z) with (debug_level_of quiet debug <? 1)%Z
    by (destruct quiet; reflexivity).
  generalize (debug_level_of quiet debug). intro lvl.
  unfold printed_keys. rewrite inspect_shape, filter_app, shown_ext_entries, !map_app.
  destruct (lvl <? 1)%Z eqn:L; unfold shown; rewrite L; reflexivity.
Qed.

(** [get_build_id] returns a stripped line that still contains
    ["Build ID"] or ["BuildID"], and returns [None] only when no line of
    the [readelf] output contains either. *)
Theorem get_build_id_spec out :
  match get_build_id out with
  | Some s =>
      exists pre line post,
        split_nl (list_ascii_of_string out) = pre ++ line :: post /\
        Forall (fun l => contains (list_ascii_of_string "Build ID") l = false /\
                         contains (list_ascii_of_string "BuildID") l = false) pre /\
        contains (list_ascii_of_string "Build ID") line
          || contains (list_ascii_of_string "BuildID") line = true /\
        s = string_of_list_ascii (strip line) /\
        contains (list_ascii_of_string "Build ID") (list_ascii_of_string s)
          || contains (list_ascii_of_string "BuildID") (list_ascii_of_string s) = true
  | None => forall line, In line (split_nl (list_ascii_of_string out)) ->
              contains (list_ascii_of_string "Build ID") line = false /\
              contains (list_ascii_of_string "BuildID") line = false
  end.
Proof.
  unfold get_build_id.
  destruct (find _ (split_nl (list_ascii_of_string out))) as [line|] eqn:F.
  - apply find_split in F as (pre & post & E & P & C).
    exists pre, line, post. split; [exact E|]. split.
    { eapply Forall_impl; [|exact P]. intros l N. cbv beta in N. apply orb_false_iff in N. exact N. }
    split; [exact C|]. split; [reflexivity|].
    rewrite list_ascii_of_string_of_list_ascii.
    apply orb_true_iff in C as [C|C]; apply orb_true_iff; [left|right];
      (apply strip_contains; [discriminate | reflexivity | reflexivity | exact C]).
  - intros line Hl. pose proof (find_none _ _ F line Hl) as N. cbv beta in N.
    apply orb_false_iff in N. exact N.
Qed.

End InspectExtras.

(* ------------------------------------------------------------------ *)
Module AuxvExtraFacts.
Import Auxv AuxvFacts.

Lemma scan_bounds le wb st d f i :
  0 < st ->
  Forall (fun e => fst e <> 0%Z) (scan le wb st d f i) /\
  length (scan le wb st d f i) * st + i <= Nat.max i (length d).
Proof.
  intro Hs. revert i. induction f as [|f IH]; intro i; [cbn; split; [constructor | lia]|].
  rewrite scan_S. cbv zeta.
  destruct (length (firstn st (skipn i d)) <? st) eqn:L; [cbn; split; [constructor | lia]|].
  apply Nat.ltb_ge in L. rewrite length_firstn, length_skipn in L.
  destruct (unpack le wb (firstn st (skipn i d))) as [t v].
  destruct (t =? 0)%Z eqn:T; [cbn; split; [constructor | lia]|].
  destruct (IH (i + st)) as [F B]. split.
  - constructor; [apply Z.eqb_neq; exact T | exact F].
  - cbn [length]. lia.
Qed.

Lemma length_encode_pairs w l : length (encode_pairs w l) = length l * (w + w).
Proof.
  induction l as [|e l IH]; [reflexivity|].
  cbn [encode_pairs flat_map]. fold (encode_pairs w l).
  rewrite !length_app, !length_encode_word, IH. simpl. lia.
Qed.

Lemma scan_prefix wb l rest f :
  Forall (fun e => fst e <> 0%Z /\ (0 <= fst e < 2 ^ Z.of_nat (8 * wb))%Z /\
                   (0 <= snd e < 2 ^ Z.of_nat (8 * wb))%Z) l ->
  scan true wb (wb + wb) (encode_pairs wb l ++ rest) (length l + f) 0 =
  l ++ scan true wb (wb + wb) rest f 0.
Proof.
  intro Hp. induction Hp as [|[t v] l [Ht [Bt Bv]] Hp IH]; [reflexivity|].
  cbn [length Nat.add]. rewrite scan_S. cbv zeta.
  cbn [encode_pairs flat_map fst snd]. fold (encode_pairs wb l). cbn [fst snd] in Ht, Bt, Bv.
  rewrite skipn_O, <- !app_assoc, firstn_words, length_app, !length_encode_word,
    Nat.ltb_irrefl, unpack_words, !le_value_encode_word by assumption.
  apply Z.eqb_neq in Ht. rewrite Ht. cbn [app]. f_equal.
  rewrite scan_shift, Nat.add_0_l, skipn_words. exact IH.
Qed.

Lemma range_len_add k st n : 0 < st -> range_len (k * st + n) st = k + range_len n st.
Proof.
  intro Hs. unfold range_len.
  replace (k * st + n + st - 1) with (n + st - 1 + k * st) by lia.
  rewrite Nat.div_add by lia. lia.
Qed.

Lemma testbit_low_table bits table :
  Forall (fun e => (0 <= fst e < 32)%Z) table ->
  bits_to_names bits table = bits_to_names (Z.land bits (Z.ones 32)) table.
Proof.
  intro H. unfold bits_to_names. f_equal.
  induction H as [|e table He H IH]; [reflexivity|]. cbn [filter].
  rewrite !shiftr_land_one by lia. rewrite Z.land_spec, Z.ones_spec_low by lia.
  rewrite andb_true_r, IH. reflexivity.
Qed.

Lemma bits_to_names_nil bits table :
  Forall (fun e => (0 <= fst e)%Z) table ->
  bits_to_names bits table = [] <-> Forall (fun e => Z.testbit bits (fst e) = false) table.
Proof.
  intro H. unfold bits_to_names. induction H as [|e table He H IH].
  - split; constructor.
  - cbn [filter]. rewrite shiftr_land_one by exact He.
    destruct (Z.testbit bits (fst e)) eqn:B; cbn [map].
    + split; [discriminate | intro F; inversion F; congruence].
    + rewrite IH. split; [intro F; constructor; assumption | intro F; inversion F; assumption].
Qed.

Lemma ljust_length s w : String.length s <= w -> String.length (ljust s w) = w.
Proof.
  intro H. unfold ljust.
  assert (A : forall a b, String.length (a ++ b) = String.length a + String.length b)
    by (induction a; intro b; simpl; congruence).
  assert (L : forall l, String.length (string_of_list_ascii l) = length l)
    by (induction l; simpl; congruence).
  rewrite A, L, repeat_length. lia.
Qed.

Lemma fold_max_ge l m x : In x l \/ x <= m -> x <= fold_left Nat.max l m.
Proof.
  revert m. induction l as [|y l IH]; intros m H; cbn [fold_left].
  - destruct H as [[]|H]. exact H.
  - apply IH. destruct H as [[<-|H]|H]; [right; lia | left; exact H | right; lia].
Qed.

Lemma name_width_ge entries e :
  In e entries -> String.length (at_name (fst e)) <= name_width entries.
Proof.
  intro H. unfold name_width. destruct entries as [|e0 es]; [contradiction|].
  apply fold_max_ge. left. exact (in_map (fun e => String.length (at_name (fst e))) _ _ H).
Qed.

Lemma substring_after s rest : 
  substring (String.length s) 3 (s ++ " : " ++ rest)%string = " : "%string.
Proof. induction s as [|c s IH]; [destruct rest; reflexivity|]. exact IH. Qed.

Lemma table_line_shape w cache e :
  exists rest, table_line w cache e = (ljust (at_name (fst e)) w ++ " : " ++ rest)%string.
Proof.
  destruct e as [t v]. unfold table_line. cbn [fst].
  destruct (if existsb (Z.eqb t) [16; 24; 31]%Z then cache t else None);
    [eexists; reflexivity|].
  destruct (t =? 25)%Z; [eexists; reflexivity|].
  destruct (existsb (String.eqb (at_name t)) DECIMAL_NAMES); eexists; reflexivity.
Qed.

Lemma decode_hwcap_eq arch h h2 :
  decode_hwcap arch h h2 =
  if String.eqb arch "aarch64" then
    (match bits_to_names h AARCH64_HWCAP with [] => []
     | _ => [("HWCAP:  " ++ String.concat ", " (sorted (bits_to_names h AARCH64_HWCAP)))%string] end) ++
    (match bits_to_names h2 AARCH64_HWCAP2 with [] => []
     | _ => [("HWCAP2: " ++ String.concat ", " (sorted (bits_to_names h2 AARCH64_HWCAP2)))%string] end)
  else if existsb (String.eqb arch) ["x86_64"; "i386"; "i686"]%string then
    (match bits_to_names h X86_HWCAP with [] => []
     | _ => [("HWCAP:  " ++ String.concat ", " (sorted (bits_to_names h X86_HWCAP)))%string] end) ++
    (if (h2 =? 0)%Z then [] else [("HWCAP2: 0x" ++ hex h2 ++ " (rarely used on x86)")%string])
  else [].
Proof. unfold decode_hwcap, bits_to_names. reflexivity. Qed.

Lemma existsb_string_in a l : existsb (String.eqb a) l = true <-> In a l.
Proof.
  induction l as [|x l IH]; cbn [existsb In]; [split; [discriminate | intros []]|].
  rewrite orb_true_iff, IH, String.eqb_eq. split; intros [E|E]; auto.
Qed.

Lemma tables_nonneg :
  Forall (fun e => (0 <= fst e < 32)%Z) AARCH64_HWCAP /\
  Forall (fun e => (0 <= fst e < 32)%Z) AARCH64_HWCAP2 /\
  Forall (fun e => (0 <= fst e < 32)%Z) X86_HWCAP.
Proof.
  assert (G : forall t : list (Z * string),
            forallb (fun e => (0 <=? fst e)%Z && (fst e <? 32)%Z) t = true ->
            Forall (fun e => (0 <= fst e < 32)%Z) t).
  { intros t Ht. apply Forall_forall. rewrite forallb_forall in Ht. intros e He.
    specialize (Ht e He). apply andb_true_iff in Ht as [A B].
    apply Z.leb_le in A. apply Z.ltb_lt in B. lia. }
  split; [|split]; apply G; vm_compute; reflexivity.
Qed.

Lemma tables_nonneg0 t :
  Forall (fun e => (0 <= fst e < 32)%Z) t -> Forall (fun e : Z * string => (0 <= fst e)%Z) t.
Proof. apply Forall_impl. intros e He. lia. Qed.

End AuxvExtraFacts.

(* ------------------------------------------------------------------ *)
(** ** Further properties of the auxv decoder and printer *)

Module AuxvExtras.
Import Auxv AuxvFacts AuxvExtraFacts.

(** Whatever the host and the hint, a successful [parse_auxv] never
    returns an [AT_NULL] (tag 0) entry, and it returns at most one entry
    per whole [2 * w]-byte stride of the buffer. *)
Theorem parse_auxv_entries_bounded native le arch data es :
  parse_auxv native le arch data = Ok es ->
  Forall (fun e => fst e <> 0%Z) es /\
  length es * (2 * Z.to_nat (word_size native arch)) <= length data.
Proof.
  unfold parse_auxv. intro H.
  destruct (word_size native arch =? 8)%Z eqn:E8; [|destruct (word_size native arch =? 4)%Z eqn:E4];
    [| |discriminate]; injection H; clear H; intro H; subst es.
  - apply Z.eqb_eq in E8. rewrite E8. replace (2 * Z.to_nat 8) with 16 by reflexivity.
    assert (G : forall f, Forall (fun e => fst e <> 0%Z) (scan le 8 16 data f 0) /\
                          length (scan le 8 16 data f 0) * 16 <= length data).
    { intro f. destruct (scan_bounds le 8 16 data f 0) as [F B]; [lia|]. split; [exact F | lia]. }
    apply G.
  - apply Z.eqb_eq in E4. rewrite E4. replace (2 * Z.to_nat 4) with 8 by reflexivity.
    assert (G : forall f, Forall (fun e => fst e <> 0%Z) (scan le 4 8 data f 0) /\
                          length (scan le 4 8 data f 0) * 8 <= length data).
    { intro f. destruct (scan_bounds le 4 8 data f 0) as [F B]; [lia|]. split; [exact F | lia]. }
    apply G.
Qed.

Lemma parse_auxv_entries_bounded_witness :
  Forall (fun e => fst e <> 0%Z) [(6, 4096)]%Z /\
  length [(6, 4096)]%Z * (2 * Z.to_nat (word_size 8 (Some "riscv64"%string))) <=
    length ([6; 0; 0; 0; 0; 0; 0; 0; 0; 16; 0; 0; 0; 0; 0; 0] ++ repeat 0%Z 16)%Z.
Proof.
  apply (parse_auxv_entries_bounded 8 true (Some "riscv64"%string)).
  vm_compute. reflexivity.
Defined.

(** On a little-endian host with word size 4 or 8, a buffer that starts
    with the encoding of [N] entries (nonzero tags, values in range)
    decodes to those [N] entries followed by whatever the rest of the
    buffer decodes to. *)
Theorem parse_auxv_prefix native arch (w : nat) l rest :
  word_size native arch = Z.of_nat w -> w = 4 \/ w = 8 ->
  Forall (fun e => fst e <> 0%Z /\ (0 <= fst e < 2 ^ Z.of_nat (8 * w))%Z /\
                   (0 <= snd e < 2 ^ Z.of_nat (8 * w))%Z) l ->
  parse_auxv native true arch (encode_pairs w l ++ rest) =
  match parse_auxv native true arch rest with Ok es => Ok (l ++ es) | Err e => Err e end.
Proof.
  intros E Hw Hp. rewrite !(parse_auxv_ws native true arch _ w E Hw). f_equal.
  rewrite length_app, length_encode_pairs, range_len_add by lia.
  apply scan_prefix. exact Hp.
Qed.

Lemma parse_auxv_prefix_witness :
  parse_auxv 8 true (Some "aarch64"%string) (encode_pairs 8 [(6, 4096)]%Z ++ [1; 2; 3]%Z) =
  match parse_auxv 8 true (Some "aarch64"%string) [1; 2; 3]%Z with
  | Ok es => Ok ([(6, 4096)]%Z ++ es) | Err e => Err e end.
Proof.
  apply (parse_auxv_prefix 8 (Some "aarch64"%string) 8).
  - reflexivity.
  - right. reflexivity.
  - repeat constructor; vm_compute; (discriminate || reflexivity).
Defined.

(** [decode_hwcap] looks only at bits 0..31 of the AArch64 masks, and for
    x86 only at bits 0..31 of [hwcap] (the whole [hwcap2] value is
    printed when nonzero). *)
Theorem decode_hwcap_low_bits arch h h2 :
  decode_hwcap "aarch64" h h2 = decode_hwcap "aarch64" (Z.land h (Z.ones 32)) (Z.land h2 (Z.ones 32)) /\
  (In arch ["x86_64"; "i386"; "i686"]%string ->
   decode_hwcap arch h h2 = decode_hwcap arch (Z.land h (Z.ones 32)) h2).
Proof.
  destruct tables_nonneg as (T1 & T2 & T3). split.
  - rewrite !decode_hwcap_eq, (testbit_low_table h _ T1), (testbit_low_table h2 _ T2). reflexivity.
  - intro H. rewrite !decode_hwcap_eq, (testbit_low_table h _ T3).
    destruct (String.eqb_spec arch "aarch64") as [->|N]; [|reflexivity].
    exfalso. simpl in H. intuition discriminate.
Qed.

(** [decode_hwcap] returns no line (so [main] prints "no known mapping")
    exactly when the architecture is not one it knows, or, on AArch64,
    when no bit of either table is set, or, on x86, when no bit of the
    x86 table is set and [hwcap2] is 0. *)
Theorem decode_hwcap_empty arch h h2 :
  decode_hwcap arch h h2 = [] <->
  ~ In arch ["aarch64"; "x86_64"; "i386"; "i686"]%string \/
  (arch = "aarch64"%string /\
   Forall (fun e => Z.testbit h (fst e) = false) AARCH64_HWCAP /\
   Forall (fun e => Z.testbit h2 (fst e) = false) AARCH64_HWCAP2) \/
  (In arch ["x86_64"; "i386"; "i686"]%string /\
   Forall (fun e => Z.testbit h (fst e) = false) X86_HWCAP /\ h2 = 0%Z).
Proof.
  destruct tables_nonneg as (T1 & T2 & T3).
  rewrite <- (bits_to_names_nil h _ (tables_nonneg0 _ T1)),
          <- (bits_to_names_nil h2 _ (tables_nonneg0 _ T2)),
          <- (bits_to_names_nil h _ (tables_nonneg0 _ T3)).
  rewrite decode_hwcap_eq.
  destruct (String.eqb_spec arch "aarch64") as [->|N1].
  - assert (K : In "aarch64"%string ["aarch64"; "x86_64"; "i386"; "i686"]%string) by (left; reflexivity).
    assert (K' : ~ In "aarch64"%string ["x86_64"; "i386"; "i686"]%string)
      by (simpl; intuition discriminate).
    transitivity (bits_to_names h AARCH64_HWCAP = [] /\ bits_to_names h2 AARCH64_HWCAP2 = []).
    + destruct (bits_to_names h AARCH64_HWCAP), (bits_to_names h2 AARCH64_HWCAP2); cbn [app];
        split; intro E; try discriminate; try (destruct E; discriminate); tauto.
    + split; [intro E; right; left; tauto|].
      intros [C|[[_ C]|[C _]]]; [contradiction | exact C | contradiction].
  - destruct (existsb (String.eqb arch) ["x86_64"; "i386"; "i686"]%string) eqn:X.
    + apply existsb_string_in in X.
      assert (K : In arch ["aarch64"; "x86_64"; "i386"; "i686"]%string) by (right; exact X).
      destruct (bits_to_names h X86_HWCAP) eqn:B, (h2 =? 0)%Z eqn:Z2; cbn [app];
        split; intro E; try discriminate.
      * right; right. apply Z.eqb_eq in Z2. tauto.
      * reflexivity.
      * destruct E as [C|[[C _]|[_ [_ C]]]]; [contradiction | contradiction | ].
        apply Z.eqb_neq in Z2. contradiction.
      * destruct E as [C|[[C _]|[_ [C _]]]]; [contradiction | contradiction | discriminate].
      * destruct E as [C|[[C _]|[_ [C _]]]]; [contradiction | contradiction | discriminate].
    + split; intro E; [|reflexivity]. left. intros [C|C]; [congruence|].
      apply existsb_string_in in C. congruence.
Qed.

(** Every line of [main]'s table has the separator [" : "] at the same
    column: the name, left-justified to the width of the longest name of
    the entries, then [" : "]. *)
Theorem auxv_table_aligned entries cache line :
  In line (auxv_table entries cache) ->
  substring (name_width entries) 3 line = " : "%string.
Proof.
  unfold auxv_table. intro H. apply in_map_iff in H as (e & <- & He).
  destruct (table_line_shape (name_width entries) cache e) as [rest ->].
  rewrite <- (ljust_length (at_name (fst e)) (name_width entries)) at 1
    by (apply name_width_ge; exact He).
  apply substring_after.
Qed.

Lemma auxv_table_aligned_witness :
  substring (name_width [(6, 4096); (33, 1)]%Z) 3
    (table_line (name_width [(6, 4096); (33, 1)]%Z) (fun _ => None) (6, 4096)%Z) = " : "%string.
Proof.
  apply (auxv_table_aligned [(6, 4096); (33, 1)]%Z (fun _ => None)).
  left. reflexivity.
Defined.

End AuxvExtras.

(* ------------------------------------------------------------------ *)
(** ** The parser of the output of [file] *)

Module FileInfoFacts.
Import Regex Inspect.

Lemma search_at_some {A} (m : list ascii -> option A) s g :
  search_at m s = Some g -> exists s', m s' = Some g.
Proof.
  induction s as [|c s IH]; cbn [search_at]; destruct (m _) eqn:E; intro H.
  - exists []. rewrite E. exact H.
  - discriminate.
  - exists (c :: s). rewrite E. exact H.
  - apply IH. exact H.
Qed.

Lemma span_fst p s : Forall (fun c => p c = true) (fst (span p s)).
Proof.
  induction s as [|c s IH]; cbn [span]; [constructor|].
  destruct (p c) eqn:P; [|constructor].
  destruct (span p s) as [r rest]. constructor; assumption.
Qed.

Lemma lit_run_some lit p s r rest :
  lit_run lit p s = Some (r, rest) -> r <> [] /\ Forall (fun c => p c = true) r.
Proof.
  unfold lit_run. destruct (drop_prefix _ s) as [s'|]; [|discriminate].
  pose proof (span_fst p s') as F.
  destruct (span p s') as [[|c r'] rest']; [discriminate|]. intro E. injection E as <- <-.
  split; [discriminate | exact F].
Qed.

Lemma search_lit_run lit p s r rest :
  search_at (lit_run lit p) s = Some (r, rest) -> r <> [] /\ Forall (fun c => p c = true) r.
Proof.
  intro H. apply search_at_some in H as [s' H]. exact (lit_run_some _ _ _ _ _ H).
Qed.

Lemma lstrip_in c l : In c (lstrip l) -> In c l.
Proof.
  induction l as [|d l IH]; cbn [lstrip]; [tauto|].
  destruct (is_space d); [intro H; right; exact (IH H) | tauto].
Qed.

Lemma strip_in c l : In c (strip l) -> In c l.
Proof.
  unfold strip. intro H. apply in_rev, lstrip_in, in_rev, lstrip_in in H. exact H.
Qed.

Lemma list_of_string_of l : list_ascii_of_string (string_of_list_ascii l) = l.
Proof. apply list_ascii_of_string_of_list_ascii. Qed.

Lemma not_comma_no_comma l : Forall (fun c => not_comma c = true) l -> ~ In ","%char l.
Proof.
  intros F I. rewrite Forall_forall in F. specialize (F _ I). discriminate.
Qed.

End FileInfoFacts.

Module FileInfoExtras.
Import Regex Inspect FileInfoFacts.

(** The fields [parse_file_info] extracts have fixed shapes:
    [binary_format] is ["unknown"] or ["ELF "] and a nonempty run without
    a comma; [arch] is one of the four names matched or ["unknown"];
    [interpreter] has no comma; [android_api] is ["none"] or
    ["Android "] and a nonempty run of digits; [builder] is ["unknown"] or
    ["NDK "] and a nonempty run without a comma; [build_id_sha1] is
    ["none"] or a nonempty run of lowercase hex digits. *)
Theorem parse_file_info_field_shapes s :
  (binary_format (parse_file_info s) = "unknown"%string \/
   exists g, binary_format (parse_file_info s) = ("ELF " ++ string_of_list_ascii g)%string /\
             g <> [] /\ ~ In ","%char g) /\
  In (arch (parse_file_info s)) ["ARM aarch64"; "x86-64"; "i386"; "MIPS"; "unknown"]%string /\
  ~ In ","%char (list_ascii_of_string (interpreter (parse_file_info s))) /\
  (android_api (parse_file_info s) = "none"%string \/
   exists g, android_api (parse_file_info s) = ("Android " ++ string_of_list_ascii g)%string /\
             g <> [] /\ Forall (fun c => is_digit c = true) g) /\
  (builder (parse_file_info s) = "unknown"%string \/
   exists g, builder (parse_file_info s) = ("NDK " ++ string_of_list_ascii g)%string /\
             g <> [] /\ ~ In ","%char g) /\
  (build_id_sha1 (parse_file_info s) = "none"%string \/
   exists g, build_id_sha1 (parse_file_info s) = string_of_list_ascii g /\
             g <> [] /\ Forall (fun c => is_hex c = true) g).
Proof.
  unfold parse_file_info.
  generalize (match after_colon (list_ascii_of_string s) with
              | Some r => strip r | None => list_ascii_of_string s end). intro t.
  unfold parse_fields; cbn [binary_format arch interpreter android_api builder build_id_sha1].
  split; [|split; [|split; [|split; [|split]]]].
  - destruct (lit_run "ELF " not_comma t) as [[r rest]|] eqn:E; [right|left; reflexivity].
    destruct (lit_run_some _ _ _ _ _ E) as [N F]. exists r.
    split; [reflexivity | split; [exact N | apply not_comma_no_comma; exact F]].
  - destruct (search_at arch_at t) as [a|] eqn:E; [|simpl; tauto].
    apply search_at_some in E as [s' E]. unfold arch_at in E.
    apply find_some in E as [I _]. simpl in I |- *. tauto.
  - destruct (search_at (lit_run "interpreter " not_comma) t) as [[r rest]|] eqn:E.
    + destruct (search_lit_run _ _ _ _ _ E) as [_ F]. rewrite list_of_string_of.
      intro I. apply strip_in in I. exact (not_comma_no_comma _ F I).
    + cbn. intuition discriminate.
  - destruct (search_at (lit_run "for Android " is_digit) t) as [[r rest]|] eqn:E; [right|left; reflexivity].
    destruct (search_lit_run _ _ _ _ _ E) as [N F]. exists r. tauto.
  - destruct (search_at (lit_run "built by NDK " not_comma) t) as [[r rest]|] eqn:E; [right|left; reflexivity].
    destruct (search_lit_run _ _ _ _ _ E) as [N F]. exists r.
    split; [reflexivity | split; [exact N | apply not_comma_no_comma; exact F]].
  - destruct (search_at (lit_run "BuildID[sha1]=" is_hex) t) as [[r rest]|] eqn:E; [right|left; reflexivity].
    destruct (search_lit_run _ _ _ _ _ E) as [N F]. exists r. tauto.
Qed.

End FileInfoExtras.
